(** * story-flow: the real-time task-progress client

    A shallow embedding of the WebSocket composable
    ([composables/useWebSocket.ts]) and of the two push-update entry points of
    the project store ([stores/project.ts]), followed by the properties of the
    reconnect policy, of the message dispatcher and of the store merge.  The
    store methods [remove], [addTask] and [reorderScenes] are embedded as
    well, with the properties of the timers, of the connection handlers and
    of the routing into the scenes. *)

From Stdlib Require Import ZArith Lia Ascii String.
From stdpp Require Import base option list strings gmap.

Local Open Scope string_scope.
Local Open Scope list_scope.
Local Set Warnings "-register-all".

(** ** JavaScript values

    The values that flow through the dispatcher are the results of
    [JSON.parse], plus [undefined] for a property that is not there.  The
    dispatcher only carries numbers, compares them with [===] and tests them
    for truthiness; they are kept as integers (the protocol's only numeric
    field is [progress], 0 to 100), so a text with a fractional number is
    outside the model. *)

Module Js.

Inductive value : Type :=
| Undefined
| Null
| Bool (b : bool)
| Num (z : Z)
| Str (s : string)
| Arr (l : list value)
| Obj (o : gmap string value).

(** What a handler can throw. *)
Inductive exn : Type :=
| SyntaxError
| TypeError
| CallbackError.

(** [v.k].  Reading a property of [null] or [undefined] throws; a primitive or
    an array has none of the property names this code reads. *)
Definition get (v : value) (k : string) : exn + value :=
  match v with
  | Undefined | Null => inl TypeError
  | Obj o => inr (default Undefined (o !! k))
  | _ => inr Undefined
  end.

(** [o.k] for a record [o] of the store. *)
Definition prop (o : gmap string value) (k : string) : value :=
  default Undefined (o !! k).

(** [a === b].  Two objects (or arrays) are equal only when they are the same
    reference; the comparisons below all have a freshly parsed value on one
    side, which is never the reference held by a store record. *)
Definition strict_eq (a b : value) : bool :=
  match a, b with
  | Undefined, Undefined => true
  | Null, Null => true
  | Bool x, Bool y => bool_decide (x = y)
  | Num x, Num y => bool_decide (x = y)
  | Str x, Str y => bool_decide (x = y)
  | _, _ => false
  end.

(** Truthiness, as tested by [if], [&&] and [!]. *)
Definition truthy (v : value) : bool :=
  match v with
  | Undefined | Null => false
  | Bool b => b
  | Num z => negb (bool_decide (z = 0%Z))
  | Str s => negb (bool_decide (s = ""))
  | Arr _ | Obj _ => true
  end.

(** [{ ...a, ...b }]: the properties of [b] win. *)
Definition spread (a b : gmap string value) : gmap string value := b ∪ a.

(** A value that [===] itself: everything but an object or an array. *)
Definition primitive (v : value) : bool :=
  match v with
  | Arr _ | Obj _ => false
  | _ => true
  end.

End Js.

(** ** The project store: [updateScene] and [updateTask] *)

Module Store.

Record t : Type := mk {
  tasks : list (gmap string Js.value);
  scenes : list (gmap string Js.value);
}.

(** [arr.findIndex(x => x.id === id)]; [None] stands for [-1]. *)
Fixpoint findIndex (id : Js.value) (arr : list (gmap string Js.value)) : option nat :=
  match arr with
  | [] => None
  | x :: rest =>
      if Js.strict_eq (Js.prop x "id") id then Some 0
      else S <$> findIndex id rest
  end.

Definition updateScene (sceneId : Js.value) (updates : gmap string Js.value)
    (st : t) : t :=
  match findIndex sceneId (scenes st) with
  | Some index =>
      mk (tasks st) (alter (fun old => Js.spread old updates) index (scenes st))
  | None => st
  end.

Definition updateTask (taskId : Js.value) (updates : gmap string Js.value)
    (st : t) : t :=
  match findIndex taskId (tasks st) with
  | Some index =>
      mk (alter (fun old => Js.spread old updates) index (tasks st)) (scenes st)
  | None => mk (tasks st ++ [updates]) (scenes st)
  end.

End Store.

(** ** The reconnect delay

    [getReconnectDelay] works on doubles.  The only doubles it can meet are
    non-negative integers with few significant bits and [+Infinity], so a
    double is an exact integer or [PosInf]; an operation whose exact result
    reaches [2^1024] gives [PosInf]. *)

Module Backoff.

Inductive double : Type :=
| Fin (z : Z)
| PosInf.

Definition overflow_at : Z := 2 ^ 1024.

Definition of_exact (z : Z) : double :=
  if (z <? overflow_at)%Z then Fin z else PosInf.

(** [Math.pow(2, n)] for a counter [n]. *)
Definition Math_pow2 (n : nat) : double := of_exact (2 ^ Z.of_nat n).

(** [a * b] for non-negative [a] and positive [b]. *)
Definition mul (a b : double) : double :=
  match a, b with
  | Fin x, Fin y => of_exact (x * y)
  | _, _ => PosInf
  end.

Definition Math_min (a b : double) : double :=
  match a, b with
  | Fin x, Fin y => Fin (Z.min x y)
  | Fin x, PosInf => Fin x
  | PosInf, Fin y => Fin y
  | PosInf, PosInf => PosInf
  end.

Definition BASE_RECONNECT_DELAY : Z := 1000.
Definition MAX_RECONNECT_DELAY : Z := 30000.

(** [getReconnectDelay()], as a function of [reconnectAttempts.value]. *)
Definition getReconnectDelay (reconnectAttempts : nat) : double :=
  let delay := mul (Fin BASE_RECONNECT_DELAY) (Math_pow2 reconnectAttempts) in
  Math_min delay (Fin MAX_RECONNECT_DELAY).

End Backoff.

(** ** The composable [useWebSocket]

    Handlers run one at a time on the event loop.  A handler is a computation
    over the state of the composable, the store and the part of the browser it
    talks to; it may throw, and what it wrote before throwing stays written. *)

Module Ws.

Definition MAX_RECONNECT_ATTEMPTS : nat := 5.
Definition HEARTBEAT_INTERVAL : Z := 30000.

(** What a user callback does when called.  The callbacks are taken not to
    call back into the composable or the store. *)
Inductive outcome : Type :=
| Returns
| Throws.

(** [WebSocketOptions], with [autoConnect] already defaulted. *)
Record WebSocketOptions : Type := {
  autoConnect : bool;
  onOpen : option outcome;
  onClose : option outcome;
  onMessage : option (Js.value -> outcome);
  onError : option outcome;
}.

(** The calls made by the only caller, [useWebSocket(projectId)]. *)
Definition default_options : WebSocketOptions :=
  {| autoConnect := true; onOpen := None; onClose := None;
     onMessage := None; onError := None |}.

(** The parts of the platform the composable relies on: [JSON.parse] ([None]
    when it throws a SyntaxError), whether [new WebSocket(url)] accepts the
    URL, and [window.location]. *)
Record Host : Type := {
  JSON_parse : string -> option Js.value;
  url_accepted : string -> bool;
  location_protocol : string;
  location_host : string;
}.

Inductive readyState : Type :=
| CONNECTING
| OPEN
| CLOSING
| CLOSED.

Inductive timer : Type :=
| Timeout (delay : Backoff.double)
| Interval (ms : Z).

(** Calls that leave the composable, most recent first in the log. *)
Inductive effect : Type :=
| NewWebSocket (ws : nat) (url : string)
| WsClose (ws : nat) (args : option (Z * string))
| WsSend (ws : nat) (payload : string)
| SetTimeout (h : positive) (delay : Backoff.double)
| ClearTimeout (h : positive)
| SetInterval (h : positive) (ms : Z)
| ClearInterval (h : positive)
| ConsoleLog (text : string)
| ConsoleError (text : string)
| ElMessageError (text : string)
| UserCallback (name : string).

Record State : Type := mkState {
  (* refs and variables of the composable *)
  socket : option nat;
  connected : bool;
  connecting : bool;
  lastMessage : option Js.value;
  reconnectAttempts : nat;
  error : option string;
  heartbeatTimer : option positive;
  reconnectTimer : option positive;
  (* the project store *)
  store : Store.t;
  (* the browser: the token in localStorage, the [readyState] of every
     socket created so far (a socket's id is its position), the pending
     timers with their handles (positive integers, hence truthy), the next
     handle, and the calls made so far *)
  token : option string;
  sockets : list readyState;
  timers : list (positive * timer);
  next_timer : positive;
  log : list effect;
  (* whether the [visibilitychange] listener is registered:
     [useEventListener] adds it when the composable is created and removes
     it when the component is unmounted *)
  listening : bool;
}.

Definition initial (tok : option string) (s : Store.t) : State :=
  {| socket := None; connected := false; connecting := false;
     lastMessage := None; reconnectAttempts := 0; error := None;
     heartbeatTimer := None; reconnectTimer := None; store := s;
     token := tok; sockets := []; timers := []; next_timer := 1%positive;
     log := []; listening := true |}.

Definition set_socket (v : option nat) (st : State) : State :=
  mkState v (connected st) (connecting st) (lastMessage st)
    (reconnectAttempts st) (error st) (heartbeatTimer st) (reconnectTimer st)
    (store st) (token st) (sockets st) (timers st) (next_timer st) (log st)
    (listening st).

Definition set_connected (v : bool) (st : State) : State :=
  mkState (socket st) v (connecting st) (lastMessage st)
    (reconnectAttempts st) (error st) (heartbeatTimer st) (reconnectTimer st)
    (store st) (token st) (sockets st) (timers st) (next_timer st) (log st)
    (listening st).

Definition set_connecting (v : bool) (st : State) : State :=
  mkState (socket st) (connected st) v (lastMessage st)
    (reconnectAttempts st) (error st) (heartbeatTimer st) (reconnectTimer st)
    (store st) (token st) (sockets st) (timers st) (next_timer st) (log st)
    (listening st).

Definition set_lastMessage (v : option Js.value) (st : State) : State :=
  mkState (socket st) (connected st) (connecting st) v
    (reconnectAttempts st) (error st) (heartbeatTimer st) (reconnectTimer st)
    (store st) (token st) (sockets st) (timers st) (next_timer st) (log st)
    (listening st).

Definition set_reconnectAttempts (v : nat) (st : State) : State :=
  mkState (socket st) (connected st) (connecting st) (lastMessage st)
    v (error st) (heartbeatTimer st) (reconnectTimer st)
    (store st) (token st) (sockets st) (timers st) (next_timer st) (log st)
    (listening st).

Definition set_error (v : option string) (st : State) : State :=
  mkState (socket st) (connected st) (connecting st) (lastMessage st)
    (reconnectAttempts st) v (heartbeatTimer st) (reconnectTimer st)
    (store st) (token st) (sockets st) (timers st) (next_timer st) (log st)
    (listening st).

Definition set_heartbeatTimer (v : option positive) (st : State) : State :=
  mkState (socket st) (connected st) (connecting st) (lastMessage st)
    (reconnectAttempts st) (error st) v (reconnectTimer st)
    (store st) (token st) (sockets st) (timers st) (next_timer st) (log st)
    (listening st).

Definition set_reconnectTimer (v : option positive) (st : State) : State :=
  mkState (socket st) (connected st) (connecting st) (lastMessage st)
    (reconnectAttempts st) (error st) (heartbeatTimer st) v
    (store st) (token st) (sockets st) (timers st) (next_timer st) (log st)
    (listening st).

Definition set_store (v : Store.t) (st : State) : State :=
  mkState (socket st) (connected st) (connecting st) (lastMessage st)
    (reconnectAttempts st) (error st) (heartbeatTimer st) (reconnectTimer st)
    v (token st) (sockets st) (timers st) (next_timer st) (log st)
    (listening st).

Definition set_token (v : option string) (st : State) : State :=
  mkState (socket st) (connected st) (connecting st) (lastMessage st)
    (reconnectAttempts st) (error st) (heartbeatTimer st) (reconnectTimer st)
    (store st) v (sockets st) (timers st) (next_timer st) (log st)
    (listening st).

Definition set_sockets (v : list readyState) (st : State) : State :=
  mkState (socket st) (connected st) (connecting st) (lastMessage st)
    (reconnectAttempts st) (error st) (heartbeatTimer st) (reconnectTimer st)
    (store st) (token st) v (timers st) (next_timer st) (log st)
    (listening st).

Definition set_timers (v : list (positive * timer)) (st : State) : State :=
  mkState (socket st) (connected st) (connecting st) (lastMessage st)
    (reconnectAttempts st) (error st) (heartbeatTimer st) (reconnectTimer st)
    (store st) (token st) (sockets st) v (next_timer st) (log st)
    (listening st).

Definition set_next_timer (v : positive) (st : State) : State :=
  mkState (socket st) (connected st) (connecting st) (lastMessage st)
    (reconnectAttempts st) (error st) (heartbeatTimer st) (reconnectTimer st)
    (store st) (token st) (sockets st) (timers st) v (log st)
    (listening st).

Definition set_listening (v : bool) (st : State) : State :=
  mkState (socket st) (connected st) (connecting st) (lastMessage st)
    (reconnectAttempts st) (error st) (heartbeatTimer st) (reconnectTimer st)
    (store st) (token st) (sockets st) (timers st) (next_timer st) (log st)
    v.

Definition emit (e : effect) (st : State) : State :=
  mkState (socket st) (connected st) (connecting st) (lastMessage st)
    (reconnectAttempts st) (error st) (heartbeatTimer st) (reconnectTimer st)
    (store st) (token st) (sockets st) (timers st) (next_timer st)
    (e :: log st) (listening st).

(** *** Handlers as computations *)

Definition M (A : Type) : Type := State -> State * (Js.exn + A).

Definition ret {A} (a : A) : M A := fun st => (st, inr a).

Definition bind {A B} (m : M A) (f : A -> M B) : M B :=
  fun st =>
    match m st with
    | (st', inr a) => f a st'
    | (st', inl e) => (st', inl e)
    end.

Definition throw {A} (e : Js.exn) : M A := fun st => (st, inl e).

Definition get : M State := fun st => (st, inr st).

Definition modify (f : State -> State) : M unit := fun st => (f st, inr tt).

(** [try { body } catch (e) { handler(e) }] *)
Definition try_catch {A} (body : M A) (handler : Js.exn -> M A) : M A :=
  fun st =>
    match body st with
    | (st', inr a) => (st', inr a)
    | (st', inl e) => handler e st'
    end.

Definition lift {A} (r : Js.exn + A) : M A := fun st => (st, r).

#[global] Instance M_ret : MRet M := @ret.
#[global] Instance M_bind : MBind M := fun A B f m => bind m f.

Definition when (c : bool) (m : M unit) : M unit := if c then m else ret tt.

(** [cb?.()] *)
Definition call (name : string) (cb : option outcome) : M unit :=
  match cb with
  | None => ret tt
  | Some Returns => modify (emit (UserCallback name))
  | Some Throws => modify (emit (UserCallback name)) ;; throw Js.CallbackError
  end.

(** *** The browser *)

(** [socket.value?.readyState] *)
Definition socket_readyState (st : State) : option readyState :=
  id ← socket st; sockets st !! id.

Definition is_open (st : State) : bool :=
  match socket_readyState st with
  | Some OPEN => true
  | _ => false
  end.

Definition setTimer (t : timer) : M positive :=
  st ← get;
  let h := next_timer st in
  modify (set_timers (timers st ++ [(h, t)])) ;;
  modify (set_next_timer (Pos.succ h)) ;;
  ret h.

Definition setTimeout (delay : Backoff.double) : M positive :=
  h ← setTimer (Timeout delay);
  modify (emit (SetTimeout h delay)) ;;
  ret h.

Definition setInterval (ms : Z) : M positive :=
  h ← setTimer (Interval ms);
  modify (emit (SetInterval h ms)) ;;
  ret h.

(** [clearTimeout] and [clearInterval] share one pool of handles. *)
Definition drop_timer (h : positive) (l : list (positive * timer)) :
    list (positive * timer) :=
  filter (fun p => p.1 ≠ h) l.

Definition clearTimeout (h : positive) : M unit :=
  st ← get;
  modify (set_timers (drop_timer h (timers st))) ;;
  modify (emit (ClearTimeout h)).

Definition clearInterval (h : positive) : M unit :=
  st ← get;
  modify (set_timers (drop_timer h (timers st))) ;;
  modify (emit (ClearInterval h)).

(** [ws.close(...)]: a socket that is connecting or open starts closing. *)
Definition start_closing (r : readyState) : readyState :=
  match r with
  | CONNECTING | OPEN => CLOSING
  | CLOSING | CLOSED => r
  end.

Definition ws_close (ws : nat) (args : option (Z * string)) : M unit :=
  st ← get;
  modify (set_sockets (alter start_closing ws (sockets st))) ;;
  modify (emit (WsClose ws args)).

Definition quote : string := String "034"%char "".

(** [JSON.stringify({ type: 'ping' })] *)
Definition ping : string :=
  "{" +:+ quote +:+ "type" +:+ quote +:+ ":" +:+ quote +:+ "ping" +:+ quote
  +:+ "}".

(** *** The functions of the composable *)

Section Composable.

Context (projectId : string) (options : WebSocketOptions) (host : Host).

(** The token spliced into a template literal. *)
Definition interpolate (tok : option string) : string := default "null" tok.

Definition websocket_url (tok : option string) : string :=
  let protocol :=
    if bool_decide (location_protocol host = "https:") then "wss:" else "ws:" in
  protocol +:+ "//" +:+ location_host host +:+ "/api/v1/ws/tasks/"
    +:+ projectId +:+ "?token=" +:+ interpolate tok.

Definition getWebSocketUrl : M string :=
  st ← get;
  ret (websocket_url (token st)).

Definition getReconnectDelay : M Backoff.double :=
  st ← get;
  ret (Backoff.getReconnectDelay (reconnectAttempts st)).

Definition stopHeartbeat : M unit :=
  st ← get;
  match heartbeatTimer st with
  | Some h => clearInterval h ;; modify (set_heartbeatTimer None)
  | None => ret tt
  end.

Definition startHeartbeat : M unit :=
  stopHeartbeat ;;
  h ← setInterval HEARTBEAT_INTERVAL;
  modify (set_heartbeatTimer (Some h)).

(** The callback given to [setInterval]. *)
Definition heartbeat : M unit :=
  st ← get;
  match socket st with
  | Some ws => when (is_open st) (modify (emit (WsSend ws ping)))
  | None => ret tt
  end.

Definition cancelReconnect : M unit :=
  st ← get;
  match reconnectTimer st with
  | Some h => clearTimeout h ;; modify (set_reconnectTimer None)
  | None => ret tt
  end.

Definition read (v : Js.value) (k : string) : M Js.value := lift (Js.get v k).

(** [v?.k] *)
Definition read_opt (v : Js.value) (k : string) : Js.value :=
  match Js.get v k with
  | inr x => x
  | inl _ => Js.Undefined
  end.

Definition updateTask (taskId : Js.value) (updates : gmap string Js.value) :
    M unit :=
  st ← get;
  modify (set_store (Store.updateTask taskId updates (store st))).

Definition updateScene (sceneId : Js.value) (updates : gmap string Js.value) :
    M unit :=
  st ← get;
  modify (set_store (Store.updateScene sceneId updates (store st))).

(** [onMessage?.(message)] *)
Definition call_onMessage (message : Js.value) : M unit :=
  call "onMessage" ((fun f => f message) <$> onMessage options).

(** The object literal handed to [updateTask]. *)
Definition task_updates (task_id type status progress message error : Js.value) :
    gmap string Js.value :=
  <["id" := task_id]> (<["type" := type]> (<["status" := status]>
  (<["progress" := progress]> (<["progress_message" := message]>
  (<["error_message" := error]> ∅))))).

Definition handleMessage (message : Js.value) : M unit :=
  modify (set_lastMessage (Some message)) ;;
  call_onMessage message ;;
  task_id ← read message "task_id";
  type ← read message "type";
  status ← read message "status";
  progress ← read message "progress";
  msg ← read message "message";
  err ← read message "error";
  updateTask task_id (task_updates task_id type status progress msg err) ;;
  result ← read message "result";
  when (Js.strict_eq status (Js.Str "completed") && Js.truthy result)
    (scene_id ← read result "scene_id";
     when (Js.strict_eq type (Js.Str "image") && Js.truthy scene_id)
       (image_url ← read result "image_url";
        updateScene scene_id
          (<["image_url" := image_url]>
             (<["status" := Js.Str "completed"]> ∅))) ;;
     when (Js.strict_eq type (Js.Str "video") && Js.truthy scene_id)
       (video_url ← read result "video_url";
        updateScene scene_id
          (<["video_url" := video_url]>
             (<["status" := Js.Str "completed"]> ∅)))) ;;
  when (Js.strict_eq status (Js.Str "failed")
          && Js.truthy (read_opt result "scene_id"))
    (updateScene (read_opt result "scene_id")
       (<["status" := Js.Str "failed"]> ∅)).

(** [new WebSocket(url)]: throws on a URL it does not accept. *)
Definition new_WebSocket (url : string) : M nat :=
  if url_accepted host url then
    st ← get;
    let ws := length (sockets st) in
    modify (set_sockets (sockets st ++ [CONNECTING])) ;;
    modify (emit (NewWebSocket ws url)) ;;
    ret ws
  else throw Js.SyntaxError.

(** [!token] *)
Definition no_token (tok : option string) : bool :=
  match tok with
  | None => true
  | Some t => bool_decide (t = "")
  end.

Definition connect : M unit :=
  st ← get;
  if no_token (token st) then modify (set_error (Some "未登录"))
  else if is_open st then ret tt
  else if connecting st then ret tt
  else
    modify (set_connecting true) ;;
    modify (set_error None) ;;
    try_catch
      (wsUrl ← getWebSocketUrl;
       ws ← new_WebSocket wsUrl;
       modify (set_socket (Some ws)))
      (fun e =>
         modify (set_connecting false) ;;
         modify (set_error (Some "连接失败")) ;;
         modify (emit (ConsoleError "[WebSocket] Connection failed:"))).

Definition scheduleReconnect : M unit :=
  cancelReconnect ;;
  delay ← getReconnectDelay;
  st ← get;
  modify (set_reconnectAttempts (S (reconnectAttempts st))) ;;
  modify (emit (ConsoleLog "[WebSocket] Reconnecting")) ;;
  h ← setTimeout delay;
  modify (set_reconnectTimer (Some h)).

Definition onopen : M unit :=
  modify (set_connected true) ;;
  modify (set_connecting false) ;;
  modify (set_reconnectAttempts 0) ;;
  modify (set_error None) ;;
  modify (emit (ConsoleLog "[WebSocket] Connected")) ;;
  startHeartbeat ;;
  call "onOpen" (onOpen options).

Definition onmessage (data : string) : M unit :=
  try_catch
    (match JSON_parse host data with
     | None => throw Js.SyntaxError
     | Some message =>
         type ← read message "type";
         if Js.strict_eq type (Js.Str "pong") then ret tt
         else handleMessage message
     end)
    (fun e => modify (emit (ConsoleError "[WebSocket] Failed to parse message:"))).

Definition onclose (wasClean : bool) : M unit :=
  modify (set_connected false) ;;
  modify (set_connecting false) ;;
  stopHeartbeat ;;
  modify (emit (ConsoleLog "[WebSocket] Disconnected:")) ;;
  call "onClose" (onClose options) ;;
  st ← get;
  if negb wasClean && (reconnectAttempts st <? MAX_RECONNECT_ATTEMPTS)%nat then
    scheduleReconnect
  else if (MAX_RECONNECT_ATTEMPTS <=? reconnectAttempts st)%nat then
    modify (set_error (Some "连接失败，请刷新页面重试")) ;;
    modify (emit (ElMessageError "实时连接失败，请刷新页面"))
  else ret tt.

Definition onerror (ws : nat) : M unit :=
  modify (emit (ConsoleError "[WebSocket] Error:")) ;;
  modify (set_error (Some "连接错误")) ;;
  call "onError" (onError options) ;;
  ws_close ws None.

Definition disconnect : M unit :=
  cancelReconnect ;;
  stopHeartbeat ;;
  st ← get;
  match socket st with
  | Some ws =>
      ws_close ws (Some (1000%Z, "Client disconnect")) ;;
      modify (set_socket None)
  | None => ret tt
  end ;;
  modify (set_connected false) ;;
  modify (set_connecting false) ;;
  modify (set_reconnectAttempts 0).

(** [JSON.stringify(data)].  The argument of [send] is anything at all; it
    is taken by what [JSON.stringify] makes of it: [Some text], or [None]
    when it throws a TypeError (a cycle, a BigInt). *)
Definition JSON_stringify (data : option string) : M string :=
  match data with
  | Some text => ret text
  | None => throw Js.TypeError
  end.

(** [send(data)] *)
Definition send (data : option string) : M bool :=
  st ← get;
  match socket st with
  | Some ws =>
      if is_open st then
        payload ← JSON_stringify data;
        modify (emit (WsSend ws payload)) ;; ret true
      else ret false
  | None => ret false
  end.

Definition resetReconnect : M unit :=
  modify (set_reconnectAttempts 0) ;;
  modify (set_error None).

(** The [visibilitychange] listener; [visible] is
    [document.visibilityState === 'visible']. *)
Definition onvisibilitychange (visible : bool) : M unit :=
  when visible
    (st ← get;
     when (negb (connected st) && negb (connecting st))
       (resetReconnect ;; connect)).

Definition onMounted : M unit := when (autoConnect options) connect.

Definition onUnmounted : M unit := disconnect.

(** *** The event loop

    One event is one task of the browser: what the browser does to its own
    state, then the handler.  An event that cannot occur in a state (a timer
    that is not pending, a socket in the wrong [readyState]) gives [None].
    Unmounting disposes of the component's scope, which removes the
    [visibilitychange] listener, and then runs the [onUnmounted] hook; from
    then on a change of visibility runs nothing.  The exported functions,
    the timers and the handlers of the sockets outlive the component.  An
    exception that leaves a handler is reported by the browser and the loop goes
    on with the state as the handler left it. *)

Inductive event : Type :=
| Mounted
| Unmounted
| CallConnect
| CallDisconnect
| CallSend (data : option string)
| CallResetReconnect
| VisibilityChange (visible : bool)
| TimeoutFires (h : positive)
| IntervalFires (h : positive)
| SocketOpen (ws : nat)
| SocketMessage (ws : nat) (data : string)
| SocketError (ws : nat)
| SocketClose (ws : nat) (wasClean : bool)
| StorageSetToken (tok : option string).

Definition run {A} (m : M A) (st : State) : State := (m st).1.

(** The pending timer with handle [h], if any. *)
Definition timer_kind (h : positive) (st : State) : option timer :=
  (fun r => r.2.2) <$> list_find (fun p => p.1 = h) (timers st).

Definition step (ev : event) (st : State) : option State :=
  match ev with
  | Mounted => Some (run onMounted st)
  | Unmounted => Some (run onUnmounted (set_listening false st))
  | CallConnect => Some (run connect st)
  | CallDisconnect => Some (run disconnect st)
  | CallSend data => Some (run (send data) st)
  | CallResetReconnect => Some (run resetReconnect st)
  | VisibilityChange visible =>
      if listening st then Some (run (onvisibilitychange visible) st)
      else Some st
  | TimeoutFires h =>
      match timer_kind h st with
      | Some (Timeout _) =>
          Some (run connect (set_timers (drop_timer h (timers st)) st))
      | _ => None
      end
  | IntervalFires h =>
      match timer_kind h st with
      | Some (Interval _) => Some (run heartbeat st)
      | _ => None
      end
  | SocketOpen ws =>
      match sockets st !! ws with
      | Some CONNECTING =>
          Some (run onopen (set_sockets (<[ws := OPEN]> (sockets st)) st))
      | _ => None
      end
  | SocketMessage ws data =>
      match sockets st !! ws with
      | Some OPEN => Some (run (onmessage data) st)
      | _ => None
      end
  | SocketError ws =>
      match sockets st !! ws with
      | Some _ => Some (run (onerror ws) st)
      | None => None
      end
  | SocketClose ws wasClean =>
      match sockets st !! ws with
      | Some CLOSED | None => None
      | Some _ =>
          Some (run (onclose wasClean) (set_sockets (<[ws := CLOSED]> (sockets st)) st))
      end
  | StorageSetToken tok => Some (set_token tok st)
  end.

Fixpoint steps (evs : list event) (st : State) : option State :=
  match evs with
  | [] => Some st
  | ev :: rest =>
      match step ev st with
      | Some st' => steps rest st'
      | None => None
      end
  end.

End Composable.

End Ws.

(** ** Counting what can still reconnect

    A reconnect can only come from a socket that has not reported its close
    yet or from a pending reconnect timer. *)

Module Conn.
Import Ws.

(** Sockets whose close event is still to come. *)
Fixpoint alive_sockets (l : list readyState) : nat :=
  match l with
  | [] => 0
  | CLOSED :: rest => alive_sockets rest
  | _ :: rest => S (alive_sockets rest)
  end.

(** Pending [setTimeout] timers. *)
Fixpoint pending_timeouts (l : list (positive * timer)) : nat :=
  match l with
  | [] => 0
  | (_, Timeout _) :: rest => S (pending_timeouts rest)
  | (_, Interval _) :: rest => pending_timeouts rest
  end.

Definition alive (st : State) : nat := alive_sockets (sockets st).

Definition pending (st : State) : nat := pending_timeouts (timers st).

(** One line of retry: at most one live socket or one pending reconnect. *)
Definition single (st : State) : Prop := alive st + pending st <= 1.

(** Events the browser raises by itself. *)
Definition from_browser (ev : event) : bool :=
  match ev with
  | TimeoutFires _ | IntervalFires _ | SocketOpen _ | SocketMessage _ _
  | SocketError _ | SocketClose _ _ => true
  | _ => false
  end.

Definition abnormal_close (ev : event) : bool :=
  match ev with
  | SocketClose _ false => true
  | _ => false
  end.

(** Browser events other than an open and a clean close. *)
Definition automatic (ev : event) : bool :=
  match ev with
  | TimeoutFires _ | IntervalFires _ | SocketMessage _ _ | SocketError _
  | SocketClose _ false => true
  | _ => false
  end.

Fixpoint abnormal_closes (evs : list event) : nat :=
  match evs with
  | [] => 0
  | ev :: rest =>
      (if abnormal_close ev then 1 else 0) + abnormal_closes rest
  end.

Definition fatal_error : string := "连接失败，请刷新页面重试".
Definition fatal_toast : effect := ElMessageError "实时连接失败，请刷新页面".

(** The state the composable is left in when it gives up. *)
Definition Failed (st : State) : Prop :=
  error st = Some fatal_error
  /\ reconnectAttempts st = MAX_RECONNECT_ATTEMPTS
  /\ connected st = false /\ connecting st = false
  /\ alive st = 0 /\ pending st = 0.

(** Along a run of automatic events with [k] abnormal closes so far: one
    line of retry, and while it lasts the attempt counter is [k] (and the
    [onClose] callback has not thrown). *)
Definition on_track (options : WebSocketOptions) (k : nat) (st : State) :
    Prop :=
  single st
  /\ (alive st + pending st = 1 ->
      reconnectAttempts st = k
      /\ (0 < k -> onClose options <> Some Throws)).

(** Every pending timer is the one its variable holds: a timeout is
    [reconnectTimer], an interval is [heartbeatTimer]. *)
Definition tracked_as (hb rt : option positive)
    (l : list (positive * timer)) : Prop :=
  forall h t, (h, t) ∈ l ->
    match t with
    | Timeout _ => rt = Some h
    | Interval _ => hb = Some h
    end.

Definition tracked (st : State) : Prop :=
  tracked_as (heartbeatTimer st) (reconnectTimer st) (timers st).

End Conn.

(** ** What a dispatched message does to the store

    [handleMessage] read as a function on the store, for a message whose
    properties can be read and whose [onMessage] callback returns.  The
    properties below first show that this is what the handler computes. *)

Module Dispatch.

Definition nullish (v : Js.value) : bool :=
  match v with
  | Js.Undefined | Js.Null => true
  | _ => false
  end.

Definition task_record (v : Js.value) : gmap string Js.value :=
  Ws.task_updates (Ws.read_opt v "task_id") (Ws.read_opt v "type")
    (Ws.read_opt v "status") (Ws.read_opt v "progress")
    (Ws.read_opt v "message") (Ws.read_opt v "error").

Definition route_scene (v : Js.value) (s : Store.t) : Store.t :=
  let type := Ws.read_opt v "type" in
  let status := Ws.read_opt v "status" in
  let result := Ws.read_opt v "result" in
  let scene_id := Ws.read_opt result "scene_id" in
  let s1 :=
    if Js.strict_eq status (Js.Str "completed") && Js.truthy result then
      let s' :=
        if Js.strict_eq type (Js.Str "image") && Js.truthy scene_id then
          Store.updateScene scene_id
            (<["image_url" := Ws.read_opt result "image_url"]>
               (<["status" := Js.Str "completed"]> ∅)) s
        else s in
      if Js.strict_eq type (Js.Str "video") && Js.truthy scene_id then
        Store.updateScene scene_id
          (<["video_url" := Ws.read_opt result "video_url"]>
             (<["status" := Js.Str "completed"]> ∅)) s'
      else s'
    else s in
  if Js.strict_eq status (Js.Str "failed") && Js.truthy scene_id then
    Store.updateScene scene_id (<["status" := Js.Str "failed"]> ∅) s1
  else s1.

Definition apply_message (v : Js.value) (s : Store.t) : Store.t :=
  route_scene v (Store.updateTask (Ws.read_opt v "task_id") (task_record v) s).

(** Whether [onMessage?.(v)] returns. *)
Definition callback_returns (options : Ws.WebSocketOptions) (v : Js.value) :
    bool :=
  match Ws.onMessage options with
  | Some f => match f v with Ws.Returns => true | Ws.Throws => false end
  | None => true
  end.

(** The trace left by [onMessage?.(v)]. *)
Definition notified (options : Ws.WebSocketOptions) (st : Ws.State) : Ws.State :=
  match Ws.onMessage options with
  | Some _ => Ws.emit (Ws.UserCallback "onMessage") st
  | None => st
  end.

Definition parse_error : Ws.effect :=
  Ws.ConsoleError "[WebSocket] Failed to parse message:".

End Dispatch.

(** ** Messages on the wire *)

Module Wire.

(** [TaskProgressMessage] of [types/index.ts]. *)
Record TaskProgressMessage : Type := {
  task_id : string;
  type : string;
  status : string;
  progress : Z;
  message : string;
  result : option (gmap string Js.value);
  error : option string;
}.

Definition with_optional (k : string) (o : option Js.value)
    (m : gmap string Js.value) : gmap string Js.value :=
  match o with
  | Some v => <[k := v]> m
  | None => m
  end.

(** The value [JSON.parse] gives for the JSON text of a message. *)
Definition to_value (m : TaskProgressMessage) : Js.value :=
  Js.Obj
    (with_optional "result" (Js.Obj <$> result m)
       (with_optional "error" (Js.Str <$> error m)
          (<["task_id" := Js.Str (task_id m)]>
             (<["type" := Js.Str (type m)]>
                (<["status" := Js.Str (status m)]>
                   (<["progress" := Js.Num (progress m)]>
                      (<["message" := Js.Str (message m)]> ∅))))))).

(** [tasks.find(t => t.id === id)?.status] *)
Definition recorded_status_of (id : Js.value) (s : Store.t) : option Js.value :=
  i ← Store.findIndex id (Store.tasks s);
  r ← Store.tasks s !! i;
  Some (Js.prop r "status").

Definition recorded_status (T : string) (s : Store.t) : option Js.value :=
  recorded_status_of (Js.Str T) s.

End Wire.

(** ** Sample data for the examples *)

Module Sample.
Import Wire.

Definition q (s : string) : string := Ws.quote +:+ s +:+ Ws.quote.

Definition running : TaskProgressMessage :=
  {| task_id := "t1"; type := "image"; status := "running"; progress := 40;
     message := "rendering"; result := None; error := None |}.

Definition running_text : string :=
  "{" +:+ q "task_id" +:+ ":" +:+ q "t1" +:+ "," +:+ q "type" +:+ ":"
  +:+ q "image" +:+ "," +:+ q "status" +:+ ":" +:+ q "running" +:+ ","
  +:+ q "progress" +:+ ":40," +:+ q "message" +:+ ":" +:+ q "rendering"
  +:+ "}".

Definition completed : TaskProgressMessage :=
  {| task_id := "t1"; type := "image"; status := "completed"; progress := 100;
     message := "done";
     result := Some (<["scene_id" := Js.Str "s1"]>
                       (<["image_url" := Js.Str "x"]> ∅));
     error := None |}.

Definition completed_text : string :=
  "{" +:+ q "task_id" +:+ ":" +:+ q "t1" +:+ "," +:+ q "type" +:+ ":"
  +:+ q "image" +:+ "," +:+ q "status" +:+ ":" +:+ q "completed" +:+ ","
  +:+ q "progress" +:+ ":100," +:+ q "message" +:+ ":" +:+ q "done" +:+ ","
  +:+ q "result" +:+ ":{" +:+ q "scene_id" +:+ ":" +:+ q "s1" +:+ ","
  +:+ q "image_url" +:+ ":" +:+ q "x" +:+ "}}".

(** [JSON.parse] on the texts the examples send; every other text is taken
    as malformed. *)
Definition parse (data : string) : option Js.value :=
  if bool_decide (data = "null") then Some Js.Null
  else if bool_decide (data = running_text) then Some (to_value running)
  else if bool_decide (data = completed_text) then Some (to_value completed)
  else None.

Definition host : Ws.Host :=
  {| Ws.JSON_parse := parse; Ws.url_accepted := fun _ => true;
     Ws.location_protocol := "https:"; Ws.location_host := "app.example" |}.

(** A store with one scene being generated and no task. *)
Definition store0 : Store.t :=
  Store.mk []
    [ <["id" := Js.Str "s1"]> (<["status" := Js.Str "generating"]> ∅) ].

(** A signed-in page that has not mounted the composable yet. *)
Definition start : Ws.State := Ws.initial (Some "token") store0.

Definition go (evs : list Ws.event) (st : Ws.State) : option Ws.State :=
  Ws.steps "p1" Ws.default_options host evs st.

(** The view has mounted and the first socket is connecting. *)
Definition mounted : Ws.State :=
  Ws.run (Ws.onMounted "p1" Ws.default_options host) start.

(** Five connections in a row that end abnormally, each retry timer firing
    in between. *)
Definition five_failures : list Ws.event :=
  [Ws.SocketClose 0 false; Ws.TimeoutFires 1;
   Ws.SocketClose 1 false; Ws.TimeoutFires 2;
   Ws.SocketClose 2 false; Ws.TimeoutFires 3;
   Ws.SocketClose 3 false; Ws.TimeoutFires 4;
   Ws.SocketClose 4 false].

(** ... then the fifth retry fires and its connection fails too. *)
Definition six_failures : list Ws.event :=
  (five_failures ++ [Ws.TimeoutFires 5]) ++ [Ws.SocketClose 5 false].

Definition gave_up : Ws.State :=
  Eval vm_compute in default mounted (go six_failures mounted).

End Sample.

(** ** Timers, one per purpose *)

Module Timers.
Import Ws Conn.

(** Pending [setInterval] timers. *)
Fixpoint pending_intervals (l : list (positive * timer)) : nat :=
  match l with
  | [] => 0
  | (_, Interval _) :: rest => S (pending_intervals rest)
  | (_, Timeout _) :: rest => pending_intervals rest
  end.

(** One handle per purpose: the pending timers are the ones the two
    variables hold, at most one of each kind. *)
Definition tidy_as (hb rt : option positive) (l : list (positive * timer)) :
    Prop :=
  tracked_as hb rt l /\ pending_timeouts l <= 1 /\ pending_intervals l <= 1.

Definition tidy (st : State) : Prop :=
  tidy_as (heartbeatTimer st) (reconnectTimer st) (timers st).

End Timers.

(** ** What the dispatcher routes into the scenes *)

Module Routing.

(** The ids of a collection, in order. *)
Definition ids (l : list (gmap string Js.value)) : list Js.value :=
  (fun r => Js.prop r "id") <$> l.

(** No two records of the collection have the same id. *)
Definition distinct_ids (l : list (gmap string Js.value)) : Prop :=
  forall i j x y,
    l !! i = Some x -> l !! j = Some y -> i <> j ->
    Js.strict_eq (Js.prop x "id") (Js.prop y "id") = false.

(** Whether [handleMessage] routes the message into a scene. *)
Definition routes (v : Js.value) : bool :=
  let type := Ws.read_opt v "type" in
  let status := Ws.read_opt v "status" in
  let result := Ws.read_opt v "result" in
  let scene_id := Ws.read_opt result "scene_id" in
  (Js.strict_eq status (Js.Str "completed") && Js.truthy result
   && (Js.strict_eq type (Js.Str "image") || Js.strict_eq type (Js.Str "video"))
   && Js.truthy scene_id)
  || (Js.strict_eq status (Js.Str "failed") && Js.truthy scene_id).

End Routing.

(** ** The project store: the methods the views call

    [remove] works on the project list and the current project, [addTask]
    and [reorderScenes] on the tasks and the scenes of [Store.t].  An
    [async] method awaits its API call first and touches the store only
    when the call has settled: it is given what the call settled with, and
    the store as it is at that moment.  The ids these methods are given are
    strings. *)

Module Project.

(** What an API call settles with: [inl e] when it rejects with [e]. *)
Definition settled (A : Type) : Type := string + A.

Record state : Type := mk {
  projects : list (gmap string Js.value);
  currentProject : option (gmap string Js.value);
}.

(** [currentProject.value?.id] *)
Definition current_id (s : state) : Js.value :=
  match currentProject s with
  | Some p => Js.prop p "id"
  | None => Js.Undefined
  end.

(** [remove], from the moment [projectsApi.delete(id)] settles. *)
Definition remove (id : string) (deleted : settled unit) (s : state) :
    state * settled unit :=
  match deleted with
  | inl e => (s, inl e)
  | inr _ =>
      let kept :=
        List.filter
          (fun p => negb (Js.strict_eq (Js.prop p "id") (Js.Str id)))
          (projects s) in
      let current :=
        if Js.strict_eq (current_id s) (Js.Str id) then None
        else currentProject s in
      (mk kept current, inr tt)
  end.

(** [arr.find(x => x.id === id)]; [None] stands for [undefined]. *)
Fixpoint find (id : Js.value) (arr : list (gmap string Js.value)) :
    option (gmap string Js.value) :=
  match arr with
  | [] => None
  | x :: rest =>
      if Js.strict_eq (Js.prop x "id") id then Some x else find id rest
  end.

Definition addTask (task : gmap string Js.value) (st : Store.t) : Store.t :=
  match find (Js.prop task "id") (Store.tasks st) with
  | Some existing => st
  | None => Store.mk (Store.tasks st ++ [task]) (Store.scenes st)
  end.

(** [reorderScenes], from the moment [projectsApi.reorderScenes] settles:
    the scenes found for the ids, in the order of the ids, renumbered from
    one. *)
Definition reorderScenes (sceneIds : list string) (reordered : settled unit)
    (st : Store.t) : Store.t * settled unit :=
  match reordered with
  | inl e => (st, inl e)
  | inr _ =>
      let looked_up :=
        (fun id => find (Js.Str id) (Store.scenes st)) <$> sceneIds in
      let found := omap (fun s => s) looked_up in
      let renumbered :=
        imap
          (fun index s =>
             Js.spread s
               (<["scene_index" := Js.Num (Z.of_nat index + 1)]> ∅))
          found in
      (Store.mk (Store.tasks st) renumbered, inr tt)
  end.

End Project.

(** ** More sample data *)

Module Scenario.
Import Wire.

(** The answer to a heartbeat. *)
Definition pong : Js.value := Js.Obj (<["type" := Js.Str "pong"]> ∅).

Definition pong_text : string :=
  "{" +:+ Sample.q "type" +:+ ":" +:+ Sample.q "pong" +:+ "}".

Definition failed : TaskProgressMessage :=
  {| task_id := "t1"; type := "image"; status := "failed"; progress := 40;
     message := "stopped";
     result := Some (<["scene_id" := Js.Str "s1"]> ∅);
     error := Some "out of memory" |}.

Definition failed_text : string :=
  "{" +:+ Sample.q "task_id" +:+ ":" +:+ Sample.q "t1" +:+ ","
  +:+ Sample.q "type" +:+ ":" +:+ Sample.q "image" +:+ ","
  +:+ Sample.q "status" +:+ ":" +:+ Sample.q "failed" +:+ ","
  +:+ Sample.q "progress" +:+ ":40," +:+ Sample.q "message" +:+ ":"
  +:+ Sample.q "stopped" +:+ "," +:+ Sample.q "result" +:+ ":{"
  +:+ Sample.q "scene_id" +:+ ":" +:+ Sample.q "s1" +:+ "},"
  +:+ Sample.q "error" +:+ ":" +:+ Sample.q "out of memory" +:+ "}".

Definition json (data : string) : option Js.value :=
  if bool_decide (data = "{}") then Some (Js.Obj ∅)
  else if bool_decide (data = pong_text) then Some pong
  else if bool_decide (data = failed_text) then Some (to_value failed)
  else Sample.parse data.

Definition browser : Ws.Host :=
  {| Ws.JSON_parse := json; Ws.url_accepted := fun _ => true;
     Ws.location_protocol := "https:"; Ws.location_host := "app.example" |}.

(** A platform whose [WebSocket] constructor refuses every URL. *)
Definition refusing : Ws.Host :=
  {| Ws.JSON_parse := json; Ws.url_accepted := fun _ => false;
     Ws.location_protocol := "https:"; Ws.location_host := "app.example" |}.

(** The first socket has opened. *)
Definition opened : Ws.State :=
  Eval vm_compute in
    default Sample.mounted (Sample.go [Ws.SocketOpen 0] Sample.mounted).

(** ... and has been lost. *)
Definition lost : Ws.State :=
  Eval vm_compute in
    default opened (Sample.go [Ws.SocketClose 0 false] opened).

(** A signed-in page whose store has no scene. *)
Definition bare : Ws.State := Ws.initial (Some "token") (Store.mk [] []).

(** Two scenes, in the order the store holds them. *)
Definition two_scenes : Store.t :=
  Store.mk []
    [ <["id" := Js.Str "s1"]> (<["scene_index" := Js.Num 1]> ∅);
      <["id" := Js.Str "s2"]> (<["scene_index" := Js.Num 2]> ∅) ].

Definition new_task : gmap string Js.value :=
  <["id" := Js.Str "t7"]> (<["status" := Js.Str "pending"]> ∅).

(** The first connection has failed before it opened. *)
Definition refused : Ws.State :=
  Eval vm_compute in
    default Sample.mounted (Sample.go [Ws.SocketClose 0 false] Sample.mounted).

(** The view mounts, and [disconnect()] then [connect()] are called before
    the first socket has closed: two sockets are alive. *)
Definition two_lines : list Ws.event :=
  [Ws.Mounted; Ws.CallDisconnect; Ws.CallConnect].

(** Six connections in a row that end abnormally, the retry timers firing
    in between; the last two closes come with no timer in between. *)
Definition six_closes : list Ws.event :=
  [Ws.SocketClose 0 false; Ws.TimeoutFires 1;
   Ws.SocketClose 1 false; Ws.TimeoutFires 2;
   Ws.SocketClose 2 false; Ws.TimeoutFires 3;
   Ws.SocketClose 3 false; Ws.TimeoutFires 4;
   Ws.SocketClose 4 false; Ws.SocketClose 5 false].

End Scenario.

(** * Properties *)

(** ** The reconnect delay *)

Module BackoffFacts.
Import Backoff.

Local Open Scope Z_scope.

Lemma cap_below_overflow : MAX_RECONNECT_DELAY < overflow_at.
Proof. reflexivity. Qed.

(** The product [getReconnectDelay] forms is 125 times a power of two: it
    has seven significant bits, so below [2^1024] it is a double, exactly. *)
Lemma delay_product_shape (n : nat) :
  BASE_RECONNECT_DELAY * 2 ^ Z.of_nat n = 125 * 2 ^ (Z.of_nat n + 3).
Proof.
  unfold BASE_RECONNECT_DELAY. rewrite Z.pow_add_r by lia.
  change (2 ^ 3) with 8. lia.
Qed.

Lemma of_exact_min (z : Z) :
  Math_min (of_exact z) (Fin MAX_RECONNECT_DELAY)
  = Fin (Z.min z MAX_RECONNECT_DELAY).
Proof.
  unfold of_exact. destruct (Z.ltb_spec z overflow_at) as [Hlt|Hge]; cbn.
  - reflexivity.
  - pose proof cap_below_overflow. f_equal. lia.
Qed.

Lemma pow2_overflows (n : nat) :
  (1024 <= n)%nat -> Math_pow2 n = PosInf.
Proof.
  intros Hn. unfold Math_pow2, of_exact, overflow_at.
  destruct (Z.ltb_spec (2 ^ Z.of_nat n) (2 ^ 1024)) as [Hlt|Hge]; [|reflexivity].
  apply Z.pow_lt_mono_r_iff in Hlt; lia.
Qed.

Lemma delay_closed_form (n : nat) :
  getReconnectDelay n
  = Fin (Z.min (BASE_RECONNECT_DELAY * 2 ^ Z.of_nat n) MAX_RECONNECT_DELAY).
Proof.
  unfold getReconnectDelay, Math_pow2. cbv zeta.
  unfold of_exact.
  destruct (Z.ltb_spec (2 ^ Z.of_nat n) overflow_at) as [Hlt|Hge].
  - cbn [mul]. apply of_exact_min.
  - cbn. f_equal. pose proof cap_below_overflow.
    unfold BASE_RECONNECT_DELAY. lia.
Qed.

Lemma delay_value_mono (n m : nat) :
  (n <= m)%nat ->
  Z.min (BASE_RECONNECT_DELAY * 2 ^ Z.of_nat n) MAX_RECONNECT_DELAY
  <= Z.min (BASE_RECONNECT_DELAY * 2 ^ Z.of_nat m) MAX_RECONNECT_DELAY.
Proof.
  intros Hnm.
  assert (2 ^ Z.of_nat n <= 2 ^ Z.of_nat m) by (apply Z.pow_le_mono_r; lia).
  unfold BASE_RECONNECT_DELAY. lia.
Qed.

(** C3: the delay at attempt count [n] is [min(1000 * 2^n, 30000)]; it never
    decreases as [n] grows; once it has reached the cap it stays there; and
    where [2^n] is no longer a finite double the delay is the cap. *)
Theorem backoff_policy :
  (forall n : nat,
      getReconnectDelay n = Fin (Z.min (1000 * 2 ^ Z.of_nat n) 30000))
  /\ (forall (n m : nat) (a b : Z),
        (n <= m)%nat -> getReconnectDelay n = Fin a ->
        getReconnectDelay m = Fin b -> a <= b)
  /\ (forall n m : nat,
        (n <= m)%nat -> getReconnectDelay n = Fin 30000 ->
        getReconnectDelay m = Fin 30000)
  /\ (forall n : nat,
        (1024 <= n)%nat ->
        Math_pow2 n = PosInf /\ getReconnectDelay n = Fin 30000).
Proof.
  repeat split.
  - apply delay_closed_form.
  - intros n m a b Hnm Ha Hb.
    rewrite delay_closed_form in Ha, Hb.
    injection Ha as <-. injection Hb as <-. by apply delay_value_mono.
  - intros n m Hnm Hn. rewrite delay_closed_form in Hn |- *.
    injection Hn as Hn. f_equal.
    pose proof (delay_value_mono n m Hnm) as Hle.
    unfold MAX_RECONNECT_DELAY in *. lia.
  - by apply pow2_overflows.
  - rewrite delay_closed_form. f_equal.
    assert (2 ^ 5 <= 2 ^ Z.of_nat n) by (apply Z.pow_le_mono_r; lia).
    unfold BASE_RECONNECT_DELAY, MAX_RECONNECT_DELAY. lia.
Qed.

Example delays_of_first_attempts :
  map getReconnectDelay [0; 1; 2; 3; 4; 5; 6]%nat
  = map Fin [1000; 2000; 4000; 8000; 16000; 30000; 30000].
Proof. reflexivity. Qed.

Example delay_after_overflow : getReconnectDelay 2000 = Fin 30000.
Proof. vm_compute. reflexivity. Qed.

End BackoffFacts.

(** ** The store *)

Module StoreFacts.
Import Store.

Lemma strict_eq_refl (v : Js.value) :
  Js.primitive v = true -> Js.strict_eq v v = true.
Proof. destruct v; cbn; intros; try done; by apply bool_decide_eq_true. Qed.

Lemma strict_eq_primitive (a b : Js.value) :
  Js.strict_eq a b = true -> Js.primitive b = true.
Proof. destruct a, b; cbn; done. Qed.

Lemma strict_eq_eq (a b : Js.value) : Js.strict_eq a b = true -> a = b.
Proof.
  destruct a, b; cbn; intros H; try done;
    apply bool_decide_eq_true in H; by subst.
Qed.

(** [findIndex] returns the first record whose [id] is the one looked for. *)
Lemma findIndex_Some id (arr : list (gmap string Js.value)) i :
  findIndex id arr = Some i ->
  exists x, arr !! i = Some x
    /\ Js.strict_eq (Js.prop x "id") id = true
    /\ forall j y, j < i -> arr !! j = Some y ->
         Js.strict_eq (Js.prop y "id") id = false.
Proof.
  revert i. induction arr as [|x arr IH]; intros i; cbn; [done|].
  destruct (Js.strict_eq (Js.prop x "id") id) eqn:Hx.
  - intros [= <-]. exists x. split_and!; [done..|]. intros j y Hj. lia.
  - destruct (findIndex id arr) as [i'|] eqn:Hf; cbn; [|done].
    intros [= <-]. destruct (IH i' eq_refl) as (x' & Hl & Hm & Hfirst).
    exists x'. split_and!; [done..|].
    intros [|j] y Hj; cbn; [by intros [= <-]|].
    apply Hfirst. lia.
Qed.

Lemma findIndex_None id (arr : list (gmap string Js.value)) :
  findIndex id arr = None <->
  forall j y, arr !! j = Some y -> Js.strict_eq (Js.prop y "id") id = false.
Proof.
  induction arr as [|x arr IH]; cbn.
  - split; [intros _ j y; by rewrite lookup_nil | done].
  - destruct (Js.strict_eq (Js.prop x "id") id) eqn:Hx.
    + split; [done|]. intros H. specialize (H 0 x eq_refl). congruence.
    + destruct (findIndex id arr) as [i'|] eqn:Hf; cbn.
      * split; [done|]. intros H.
        assert (Some i' = None) as Hcontra; [|done].
        apply IH. intros j y Hj. by apply (H (S j)).
      * split; [|done]. intros _ [|j] y; cbn; [by intros [= <-]|].
        by apply IH.
Qed.

(** Rewriting the found record in a way that keeps it a match does not move
    the match. *)
Lemma findIndex_alter id f (arr : list (gmap string Js.value)) i :
  findIndex id arr = Some i ->
  (forall x, Js.strict_eq (Js.prop x "id") id = true ->
             Js.strict_eq (Js.prop (f x) "id") id = true) ->
  findIndex id (alter f i arr) = Some i.
Proof.
  intros Hfind Hf. revert i Hfind.
  induction arr as [|x arr IH]; intros i; cbn; [done|].
  destruct (Js.strict_eq (Js.prop x "id") id) eqn:Hx.
  - intros [= <-]. cbn. by rewrite (Hf x Hx).
  - destruct (findIndex id arr) as [i'|] eqn:Hfi; cbn; [|done].
    intros [= <-]. cbn. rewrite Hx. by rewrite (IH i' eq_refl).
Qed.

Lemma findIndex_app_new id (arr : list (gmap string Js.value)) x :
  findIndex id arr = None ->
  Js.strict_eq (Js.prop x "id") id = true ->
  findIndex id (arr ++ [x]) = Some (length arr).
Proof.
  intros Hnone Hx. induction arr as [|y arr IH]; cbn in *.
  - by rewrite Hx.
  - destruct (Js.strict_eq (Js.prop y "id") id); [done|].
    destruct (findIndex id arr); [done|]. by rewrite IH.
Qed.

Lemma spread_lookup (a b : gmap string Js.value) k :
  Js.spread a b !! k = match b !! k with Some v => Some v | None => a !! k end.
Proof.
  unfold Js.spread. rewrite lookup_union.
  destruct (b !! k), (a !! k); done.
Qed.

Lemma spread_idem (a b : gmap string Js.value) :
  Js.spread (Js.spread a b) b = Js.spread a b.
Proof. unfold Js.spread. by rewrite (assoc_L (∪)), (idemp_L (∪)). Qed.

Lemma spread_self (b : gmap string Js.value) : Js.spread b b = b.
Proof. unfold Js.spread. by rewrite (idemp_L (∪)). Qed.

Lemma spread_keeps_id (a b : gmap string Js.value) :
  b !! "id" = None -> Js.prop (Js.spread a b) "id" = Js.prop a "id".
Proof. intros Hb. unfold Js.prop. by rewrite spread_lookup, Hb. Qed.

Lemma spread_sets_id (a b : gmap string Js.value) v :
  b !! "id" = Some v -> Js.prop (Js.spread a b) "id" = v.
Proof. intros Hb. unfold Js.prop. by rewrite spread_lookup, Hb. Qed.

Lemma updateTask_scenes id upd st :
  scenes (updateTask id upd st) = scenes st.
Proof. unfold updateTask. by destruct (findIndex id (tasks st)). Qed.

Lemma updateScene_tasks id upd st :
  tasks (updateScene id upd st) = tasks st.
Proof. unfold updateScene. by destruct (findIndex id (scenes st)). Qed.

(** [updateScene] with an id no scene has changes nothing. *)
Lemma updateScene_unknown id upd st :
  findIndex id (scenes st) = None -> updateScene id upd st = st.
Proof. unfold updateScene. by intros ->. Qed.

(** The text of C5 asks [updateScene] to create the scene it does not find.
    On an empty store it creates none. *)
Lemma updateScene_does_not_insert :
  findIndex (Js.Str "s1") (scenes (mk [] [])) = None
  /\ updateScene (Js.Str "s1") {[ "status" := Js.Str "completed" ]} (mk [] [])
     = mk [] [].
Proof. split; reflexivity. Qed.

(** C5, amended: [updateTask] is an upsert (the first record with the id is
    merged, the updates winning field by field and every other record kept; a
    record made of the updates is appended when there is none); [updateScene]
    merges in the same way when the scene is there and leaves the store as it
    is when it is not; each leaves the other collection alone, and both are
    total. *)
Theorem store_update_contract (id : Js.value) (upd : gmap string Js.value)
    (st : Store.t) :
  scenes (updateTask id upd st) = scenes st
  /\ tasks (updateScene id upd st) = tasks st
  /\ (forall i old,
        findIndex id (tasks st) = Some i -> tasks st !! i = Some old ->
        length (tasks (updateTask id upd st)) = length (tasks st)
        /\ tasks (updateTask id upd st) !! i = Some (Js.spread old upd)
        /\ (forall k v, upd !! k = Some v -> Js.spread old upd !! k = Some v)
        /\ (forall k, upd !! k = None -> Js.spread old upd !! k = old !! k)
        /\ (forall j, j <> i ->
              tasks (updateTask id upd st) !! j = tasks st !! j))
  /\ (findIndex id (tasks st) = None ->
        tasks (updateTask id upd st) = tasks st ++ [upd])
  /\ (forall i old,
        findIndex id (scenes st) = Some i -> scenes st !! i = Some old ->
        length (scenes (updateScene id upd st)) = length (scenes st)
        /\ scenes (updateScene id upd st) !! i = Some (Js.spread old upd)
        /\ (forall j, j <> i ->
              scenes (updateScene id upd st) !! j = scenes st !! j))
  /\ (findIndex id (scenes st) = None -> updateScene id upd st = st).
Proof.
  split_and!.
  - apply updateTask_scenes.
  - apply updateScene_tasks.
  - intros i old Hfind Hold. unfold updateTask. rewrite Hfind. cbn.
    split_and!.
    + apply length_alter.
    + by rewrite list_lookup_alter_eq, Hold.
    + intros k v Hk. by rewrite spread_lookup, Hk.
    + intros k Hk. by rewrite spread_lookup, Hk.
    + intros j Hj. by apply list_lookup_alter_ne.
  - unfold updateTask. by intros ->.
  - intros i old Hfind Hold. unfold updateScene. rewrite Hfind. cbn.
    split_and!.
    + apply length_alter.
    + by rewrite list_lookup_alter_eq, Hold.
    + intros j Hj. by apply list_lookup_alter_ne.
  - apply updateScene_unknown.
Qed.

(** Applying the same update twice is applying it once. *)
Lemma updateTask_idem id upd st :
  upd !! "id" = Some id -> Js.primitive id = true ->
  updateTask id upd (updateTask id upd st) = updateTask id upd st.
Proof.
  intros Hid Hprim.
  assert (forall x : gmap string Js.value,
    Js.strict_eq (Js.prop (Js.spread x upd) "id") id = true) as Hkeep.
  { intros x. rewrite (spread_sets_id _ _ _ Hid). by apply strict_eq_refl. }
  destruct (findIndex id (tasks st)) as [i|] eqn:Hfind.
  - assert (updateTask id upd st
            = mk (alter (fun old => Js.spread old upd) i (tasks st)) (scenes st))
      as -> by (unfold updateTask; by rewrite Hfind).
    unfold updateTask. cbn.
    rewrite (findIndex_alter _ _ _ _ Hfind) by (intros; apply Hkeep).
    f_equal. rewrite list_alter_alter_eq.
    apply list_alter_ext; [|done]. intros x _. cbn. apply spread_idem.
  - assert (updateTask id upd st = mk (tasks st ++ [upd]) (scenes st))
      as -> by (unfold updateTask; by rewrite Hfind).
    unfold updateTask. cbn.
    rewrite (findIndex_app_new _ _ _ Hfind); cycle 1.
    { unfold Js.prop. rewrite Hid. by apply strict_eq_refl. }
    f_equal.
    rewrite alter_app_r_alt by lia. rewrite Nat.sub_diag. cbn.
    by rewrite spread_self.
Qed.

Lemma updateScene_idem id upd st :
  upd !! "id" = None ->
  updateScene id upd (updateScene id upd st) = updateScene id upd st.
Proof.
  intros Hid.
  destruct (findIndex id (scenes st)) as [i|] eqn:Hfind.
  - assert (updateScene id upd st
            = mk (tasks st) (alter (fun old => Js.spread old upd) i (scenes st)))
      as -> by (unfold updateScene; by rewrite Hfind).
    unfold updateScene. cbn.
    rewrite (findIndex_alter _ _ _ _ Hfind); cycle 1.
    { intros x Hx. by rewrite spread_keeps_id. }
    f_equal. rewrite list_alter_alter_eq.
    apply list_alter_ext; [|done]. intros x _. cbn. apply spread_idem.
  - by rewrite !(updateScene_unknown _ _ _ Hfind).
Qed.

End StoreFacts.

(** ** The dispatcher *)

Module DispatchFacts.
Import Ws Dispatch StoreFacts.

Ltac unfold_monad :=
  cbv [mbind M_bind bind mret M_ret ret modify get throw lift call when
       try_catch read updateTask updateScene fmap option_fmap option_map].

Lemma get_ok v k : nullish v = false -> Js.get v k = inr (read_opt v k).
Proof. by destruct v. Qed.

Lemma get_nullish v k : nullish v = true -> Js.get v k = inl Js.TypeError.
Proof. by destruct v. Qed.

Lemma truthy_not_nullish v : Js.truthy v = true -> nullish v = false.
Proof. by destruct v. Qed.

(** The task update and the scene updates touch different collections. *)
Lemma updateTask_updateScene_comm id upd sid supd s :
  Store.updateTask id upd (Store.updateScene sid supd s)
  = Store.updateScene sid supd (Store.updateTask id upd s).
Proof.
  unfold Store.updateTask, Store.updateScene.
  destruct (Store.findIndex sid (Store.scenes s)) eqn:Hs;
    destruct (Store.findIndex id (Store.tasks s)) eqn:Ht; cbn;
    by rewrite ?Hs, ?Ht.
Qed.

Lemma route_scene_tasks v s :
  Store.tasks (route_scene v s) = Store.tasks s.
Proof.
  unfold route_scene. cbv zeta.
  repeat match goal with
         | |- context [if ?b then _ else _] => destruct b
         end;
    by rewrite ?updateScene_tasks.
Qed.

Lemma updateTask_route_scene_comm id upd v s :
  Store.updateTask id upd (route_scene v s)
  = route_scene v (Store.updateTask id upd s).
Proof.
  unfold route_scene. cbv zeta.
  repeat match goal with
         | |- context [if ?b then _ else _] => destruct b
         end;
    by rewrite ?updateTask_updateScene_comm.
Qed.

Lemma strict_eq_exclusive v a b :
  a <> b -> Js.strict_eq v (Js.Str a) = true ->
  Js.strict_eq v (Js.Str b) = false.
Proof.
  intros Hab Ha. apply strict_eq_eq in Ha as ->. cbn.
  by apply bool_decide_eq_false.
Qed.

(** Routing the same result into the scenes twice is routing it once. *)
Lemma route_scene_idem v s :
  route_scene v (route_scene v s) = route_scene v s.
Proof.
  unfold route_scene. cbv zeta.
  destruct (Js.strict_eq (read_opt v "status") (Js.Str "completed")) eqn:Hc.
  - rewrite (strict_eq_exclusive _ "completed" "failed") by done. cbn.
    destruct (Js.truthy (read_opt v "result")); [|done].
    destruct (Js.strict_eq (read_opt v "type") (Js.Str "image")) eqn:Hi.
    + rewrite (strict_eq_exclusive _ "image" "video") by done. cbn.
      destruct (Js.truthy _); [|done]. by apply updateScene_idem.
    + cbn. destruct (_ && _); [|done]. by apply updateScene_idem.
  - cbn. destruct (_ && _); [|done]. by apply updateScene_idem.
Qed.

Lemma task_record_id v :
  task_record v !! "id" = Some (read_opt v "task_id").
Proof. unfold task_record, task_updates. by rewrite lookup_insert_eq. Qed.

(** Applying the same message twice is applying it once, as long as its
    [task_id] is not an object. *)
Lemma apply_message_idem v s :
  Js.primitive (read_opt v "task_id") = true ->
  apply_message v (apply_message v s) = apply_message v s.
Proof.
  intros Hprim. unfold apply_message.
  rewrite updateTask_route_scene_comm, route_scene_idem.
  by rewrite updateTask_idem by (done || apply task_record_id).
Qed.

(** After [updateTask] some record carries every field of the update; when
    the id is not an object it is the record found under that id. *)
Lemma updateTask_stored id upd s :
  exists i r,
    Store.tasks (Store.updateTask id upd s) !! i = Some r
    /\ (forall k x, upd !! k = Some x -> r !! k = Some x)
    /\ (upd !! "id" = Some id -> Js.primitive id = true ->
        Store.findIndex id (Store.tasks (Store.updateTask id upd s)) = Some i).
Proof.
  unfold Store.updateTask.
  destruct (Store.findIndex id (Store.tasks s)) as [i|] eqn:Hfind; cbn.
  - destruct (findIndex_Some _ _ _ Hfind) as (old & Hold & _).
    exists i, (Js.spread old upd). split_and!.
    + by rewrite list_lookup_alter_eq, Hold.
    + intros k x Hk. by rewrite spread_lookup, Hk.
    + intros Hid Hprim. apply findIndex_alter; [done|].
      intros x _. rewrite (spread_sets_id _ _ _ Hid). by apply strict_eq_refl.
  - exists (length (Store.tasks s)), upd. split_and!.
    + by rewrite lookup_app_r, Nat.sub_diag.
    + done.
    + intros Hid Hprim. apply findIndex_app_new; [done|].
      unfold Js.prop. rewrite Hid. by apply strict_eq_refl.
Qed.

Section WithOptions.

Context (options : WebSocketOptions) (host : Host).

(** [handleMessage] on a readable message whose callback returns. *)
Lemma handleMessage_returns v st :
  nullish v = false -> callback_returns options v = true ->
  handleMessage options v st
  = (set_store (apply_message v (store st))
       (notified options (set_lastMessage (Some v) st)), inr tt).
Proof.
  intros Hv Hcb. unfold handleMessage, call_onMessage.
  unfold callback_returns, notified in *.
  unfold apply_message, route_scene, task_record. cbv zeta.
  assert (forall k, Js.truthy (read_opt v "result") = true ->
            Js.get (read_opt v "result") k
            = inr (read_opt (read_opt v "result") k)) as Hres.
  { intros k H. apply get_ok. by apply truthy_not_nullish. }
  unfold_monad. rewrite !(get_ok v) by done.
  destruct (onMessage options) as [f|]; [destruct (f v); [|done]|];
    destruct (Js.strict_eq (read_opt v "status") (Js.Str "completed")) eqn:Hc;
    destruct (Js.truthy (read_opt v "result")) eqn:Hr;
    rewrite ?Hres by done;
    destruct (Js.strict_eq (read_opt v "type") (Js.Str "image")) eqn:Hi;
    destruct (Js.strict_eq (read_opt v "type") (Js.Str "video")) eqn:Hvid;
    destruct (Js.truthy (read_opt (read_opt v "result") "scene_id")) eqn:Hs;
    destruct (Js.strict_eq (read_opt v "status") (Js.Str "failed")) eqn:Hf;
    reflexivity.
Qed.

(** [handleMessage] when the callback throws: nothing reaches the store. *)
Lemma handleMessage_callback_throws v st :
  callback_returns options v = false ->
  handleMessage options v st
  = (emit (UserCallback "onMessage") (set_lastMessage (Some v) st),
     inl Js.CallbackError).
Proof.
  intros Hcb. unfold handleMessage, call_onMessage, callback_returns in *.
  unfold_monad.
  destruct (onMessage options) as [f|]; [|done].
  by destruct (f v).
Qed.

(** What [ws.onmessage] does, case by case. *)
Lemma onmessage_malformed data st :
  JSON_parse host data = None ->
  onmessage options host data st = (emit parse_error st, inr tt).
Proof. intros Hp. unfold onmessage. unfold_monad. by rewrite Hp. Qed.

Lemma onmessage_nullish data v st :
  JSON_parse host data = Some v -> nullish v = true ->
  onmessage options host data st = (emit parse_error st, inr tt).
Proof.
  intros Hp Hv. unfold onmessage. unfold_monad.
  by rewrite Hp, (get_nullish v) by done.
Qed.

Lemma onmessage_pong data v st :
  JSON_parse host data = Some v -> nullish v = false ->
  Js.strict_eq (read_opt v "type") (Js.Str "pong") = true ->
  onmessage options host data st = (st, inr tt).
Proof.
  intros Hp Hv Hpong. unfold onmessage. unfold_monad.
  by rewrite Hp, (get_ok v), Hpong by done.
Qed.

Lemma onmessage_handled data v st :
  JSON_parse host data = Some v -> nullish v = false ->
  Js.strict_eq (read_opt v "type") (Js.Str "pong") = false ->
  callback_returns options v = true ->
  onmessage options host data st
  = (set_store (apply_message v (store st))
       (notified options (set_lastMessage (Some v) st)), inr tt).
Proof.
  intros Hp Hv Hpong Hcb. unfold onmessage. unfold try_catch.
  rewrite Hp. unfold read, lift. rewrite (get_ok v) by done.
  cbv [mbind M_bind bind]. rewrite Hpong.
  by rewrite handleMessage_returns.
Qed.

Lemma onmessage_callback_throws data v st :
  JSON_parse host data = Some v -> nullish v = false ->
  Js.strict_eq (read_opt v "type") (Js.Str "pong") = false ->
  callback_returns options v = false ->
  onmessage options host data st
  = (emit parse_error
       (emit (UserCallback "onMessage") (set_lastMessage (Some v) st)),
     inr tt).
Proof.
  intros Hp Hv Hpong Hcb. unfold onmessage. unfold try_catch.
  rewrite Hp. unfold read, lift. rewrite (get_ok v) by done.
  cbv [mbind M_bind bind]. rewrite Hpong.
  by rewrite handleMessage_callback_throws.
Qed.

(** C6, amended: whatever the text, [ws.onmessage] returns normally.  A
    text that [JSON.parse] rejects, and the text [null], are reported on the
    console and change nothing else, the store in particular.  A text that
    parses to anything else is not checked against the shape of a message:
    unless its [type] is ["pong"] it goes to [handleMessage], which (when
    the callback returns) applies it to the store and reports nothing. *)
Theorem dispatcher_contains_errors (data : string) (st : State) :
  (onmessage options host data st).2 = inr tt
  /\ (JSON_parse host data = None
      \/ (exists v, JSON_parse host data = Some v /\ nullish v = true) ->
      run (onmessage options host data) st = emit parse_error st
      /\ store (run (onmessage options host data) st) = store st
      /\ log (run (onmessage options host data) st) = parse_error :: log st)
  /\ (forall v,
        JSON_parse host data = Some v -> nullish v = false ->
        Js.strict_eq (read_opt v "type") (Js.Str "pong") = false ->
        callback_returns options v = true ->
        run (onmessage options host data) st
        = set_store (apply_message v (store st))
            (notified options (set_lastMessage (Some v) st))
        /\ log (run (onmessage options host data) st)
           = log (notified options st)
        /\ exists i r,
             Store.tasks (store (run (onmessage options host data) st)) !! i
             = Some r
             /\ forall k x, task_record v !! k = Some x -> r !! k = Some x).
Proof.
  split_and!.
  - destruct (JSON_parse host data) as [v|] eqn:Hp;
      [|by rewrite onmessage_malformed].
    destruct (nullish v) eqn:Hv; [by erewrite onmessage_nullish|].
    destruct (Js.strict_eq (read_opt v "type") (Js.Str "pong")) eqn:Hpong;
      [by erewrite onmessage_pong|].
    destruct (callback_returns options v) eqn:Hcb.
    + by erewrite onmessage_handled.
    + by erewrite onmessage_callback_throws.
  - intros [Hp|(v & Hp & Hv)]; unfold run.
    + by rewrite onmessage_malformed.
    + by rewrite (onmessage_nullish _ _ _ Hp Hv).
  - intros v Hp Hv Hpong Hcb.
    unfold run. rewrite (onmessage_handled _ _ _ Hp Hv Hpong Hcb).
    cbn [fst]. split_and!; [done| |].
    + unfold notified. by destruct (onMessage options).
    + cbn [store set_store]. unfold apply_message.
      destruct (updateTask_stored (read_opt v "task_id") (task_record v)
                  (store st)) as (i & r & Hr & Hfields & _).
      exists i, r. by rewrite route_scene_tasks.
Qed.

Lemma to_value_readable (e : Wire.TaskProgressMessage) :
  nullish (Wire.to_value e) = false.
Proof. done. Qed.

Lemma to_value_fields (e : Wire.TaskProgressMessage) :
  read_opt (Wire.to_value e) "task_id" = Js.Str (Wire.task_id e)
  /\ read_opt (Wire.to_value e) "type" = Js.Str (Wire.type e)
  /\ read_opt (Wire.to_value e) "status" = Js.Str (Wire.status e).
Proof.
  unfold Wire.to_value, Wire.with_optional, read_opt. cbn.
  destruct (Wire.result e), (Wire.error e); cbn;
    by rewrite ?lookup_insert_eq, ?lookup_insert_ne, ?lookup_insert_eq by done.
Qed.

(** C8: a well-formed message dispatched twice in a row leaves the tasks and
    the scenes as one dispatch leaves them. *)
Theorem dispatch_idempotent (e : Wire.TaskProgressMessage) (data : string)
    (st : State) :
  JSON_parse host data = Some (Wire.to_value e) ->
  store (run (onmessage options host data)
           (run (onmessage options host data) st))
  = store (run (onmessage options host data) st).
Proof.
  intros Hp. unfold run.
  pose proof (to_value_readable e) as Hv.
  destruct (Js.strict_eq (read_opt (Wire.to_value e) "type") (Js.Str "pong"))
    eqn:Hpong.
  { by rewrite !(onmessage_pong _ _ _ Hp Hv Hpong). }
  destruct (callback_returns options (Wire.to_value e)) eqn:Hcb.
  - rewrite !(onmessage_handled _ _ _ Hp Hv Hpong Hcb). cbn.
    replace (store (notified options (set_lastMessage (Some (Wire.to_value e))
               (set_store (apply_message (Wire.to_value e) (store st))
                  (notified options
                     (set_lastMessage (Some (Wire.to_value e)) st))))))
      with (apply_message (Wire.to_value e) (store st))
      by (unfold notified; by destruct (onMessage options)).
    replace (store (notified options
                      (set_lastMessage (Some (Wire.to_value e)) st)))
      with (store st) by (unfold notified; by destruct (onMessage options)).
    apply apply_message_idem.
    by rewrite (proj1 (to_value_fields e)).
  - by rewrite !(onmessage_callback_throws _ _ _ Hp Hv Hpong Hcb).
Qed.

(** C1, amended: the status recorded for a task after a message for it has
    been dispatched is the status of that message, whatever was recorded
    before; a terminal status is kept only by a message that repeats it. *)
Theorem last_status_is_recorded (e : Wire.TaskProgressMessage) (data : string)
    (st : State) :
  JSON_parse host data = Some (Wire.to_value e) ->
  Wire.type e <> "pong" ->
  callback_returns options (Wire.to_value e) = true ->
  Wire.recorded_status (Wire.task_id e)
    (store (run (onmessage options host data) st))
  = Some (Js.Str (Wire.status e)).
Proof.
  intros Hp Hty Hcb. unfold run.
  destruct (to_value_fields e) as (Hid & Htype & Hstatus).
  rewrite (onmessage_handled _ _ _ Hp (to_value_readable e)); [|
    by rewrite Htype; cbn; apply bool_decide_eq_false; congruence | done].
  cbn. unfold Wire.recorded_status, Wire.recorded_status_of, apply_message.
  rewrite route_scene_tasks.
  replace (store (notified options
                    (set_lastMessage (Some (Wire.to_value e)) st)))
    with (store st) by (unfold notified; by destruct (onMessage options)).
  destruct (updateTask_stored (read_opt (Wire.to_value e) "task_id")
              (task_record (Wire.to_value e)) (store st))
    as (i & r & Hr & Hfields & Hfound).
  rewrite Hid in *.
  rewrite Hfound by (done || by rewrite task_record_id, Hid). cbn.
  rewrite Hr. cbn. unfold Js.prop.
  rewrite (Hfields "status" (Js.Str (Wire.status e))); [done|].
  unfold task_record, task_updates. rewrite Hstatus.
  by rewrite !lookup_insert_ne, lookup_insert_eq by done.
Qed.

(** C10, amended: a text that parses to anything but [null], whose [type] is
    not ["pong"] and whose callback returns, is applied to the tasks as an
    update keyed by its [task_id]: a record is merged or appended, and some
    record then carries the six fields read from the message, [undefined]
    where the message has none. *)
Theorem unvalidated_message_is_stored (data : string) (v : Js.value)
    (st : State) :
  JSON_parse host data = Some v ->
  nullish v = false ->
  Js.strict_eq (read_opt v "type") (Js.Str "pong") = false ->
  callback_returns options v = true ->
  let before := Store.tasks (store st) in
  let after := Store.tasks (store (run (onmessage options host data) st)) in
  after = Store.tasks
            (Store.updateTask (read_opt v "task_id") (task_record v) (store st))
  /\ (length after = length before \/ length after = S (length before))
  /\ exists i r,
       after !! i = Some r
       /\ Js.prop r "id" = read_opt v "task_id"
       /\ Js.prop r "type" = read_opt v "type"
       /\ Js.prop r "status" = read_opt v "status"
       /\ Js.prop r "progress" = read_opt v "progress"
       /\ Js.prop r "progress_message" = read_opt v "message"
       /\ Js.prop r "error_message" = read_opt v "error".
Proof.
  intros Hp Hv Hpong Hcb before after. subst before after. unfold run.
  rewrite (onmessage_handled _ _ _ Hp Hv Hpong Hcb). cbn.
  replace (store (notified options (set_lastMessage (Some v) st)))
    with (store st) by (unfold notified; by destruct (onMessage options)).
  unfold apply_message. rewrite route_scene_tasks.
  split_and!.
  - done.
  - unfold Store.updateTask.
    destruct (Store.findIndex _ _); cbn.
    + left. apply length_alter.
    + right. rewrite length_app. cbn. lia.
  - destruct (updateTask_stored (read_opt v "task_id") (task_record v)
                (store st)) as (i & r & Hr & Hfields & _).
    exists i, r. unfold Js.prop.
    split_and!; [done|..];
      (erewrite Hfields; [done|]); unfold task_record, task_updates;
      by rewrite ?lookup_insert_eq, ?lookup_insert_ne, ?lookup_insert_eq by done.
Qed.

End WithOptions.

(** The text of C1 asks a recorded terminal status to survive a later
    non-terminal event.  Here a [completed] event then a [running] event for
    task [t1] leave [running] recorded. *)
Lemma terminal_status_overwritten :
  let dispatch data := run (onmessage default_options Sample.host data) in
  let st1 := dispatch Sample.completed_text Sample.start in
  let st2 := dispatch Sample.running_text st1 in
  Wire.recorded_status "t1" (store st1) = Some (Js.Str "completed")
  /\ Wire.recorded_status "t1" (store st2) = Some (Js.Str "running").
Proof. vm_compute. split; reflexivity. Qed.

(** The text of C10 has every text that parses, with a [type] other than
    ["pong"], reach the task store.  The text [null] parses, has no [type]
    at all, and is dropped with a console error. *)
Lemma null_message_is_dropped :
  let st' := run (onmessage default_options Sample.host "null") Sample.start in
  JSON_parse Sample.host "null" = Some Js.Null
  /\ read_opt Js.Null "type" <> Js.Str "pong"
  /\ store st' = store Sample.start
  /\ Store.tasks (store st') = []
  /\ log st' = [parse_error].
Proof. vm_compute. split_and!; done. Qed.

(** The text of C6 has every text that is not a message logged and dropped.
    The text [{}] parses, is no message (it has no field at all), and is
    neither logged nor dropped: it appends a task record whose fields are
    all [undefined]. *)
Lemma shapeless_message_is_stored :
  let st' := run (onmessage default_options Scenario.browser "{}")
               Sample.start in
  JSON_parse Scenario.browser "{}" = Some (Js.Obj ∅)
  /\ Store.tasks (store Sample.start) = []
  /\ length (Store.tasks (store st')) = 1
  /\ Wire.recorded_status_of Js.Undefined (store st') = Some Js.Undefined
  /\ log st' = [].
Proof. vm_compute. split_and!; reflexivity. Qed.

Lemma dispatch_idempotent_witness :
  JSON_parse Sample.host Sample.completed_text
  = Some (Wire.to_value Sample.completed)
  /\ store (run (onmessage default_options Sample.host Sample.completed_text)
              (run (onmessage default_options Sample.host Sample.completed_text)
                 Sample.start))
     = store (run (onmessage default_options Sample.host Sample.completed_text)
                Sample.start).
Proof.
  split; [reflexivity|].
  apply (dispatch_idempotent default_options Sample.host Sample.completed).
  reflexivity.
Defined.

Lemma last_status_is_recorded_witness :
  JSON_parse Sample.host Sample.running_text
  = Some (Wire.to_value Sample.running)
  /\ Wire.recorded_status "t1"
       (store (run (onmessage default_options Sample.host Sample.running_text)
                 (run (onmessage default_options Sample.host
                         Sample.completed_text) Sample.start)))
     = Some (Js.Str "running").
Proof.
  split; [reflexivity|].
  apply (last_status_is_recorded default_options Sample.host Sample.running);
    [reflexivity | discriminate | reflexivity].
Defined.

Lemma unvalidated_message_is_stored_witness :
  JSON_parse Sample.host Sample.running_text
  = Some (Wire.to_value Sample.running)
  /\ exists i r,
       Store.tasks
         (store (run (onmessage default_options Sample.host Sample.running_text)
                   Sample.start)) !! i = Some r
       /\ Js.prop r "id" = Js.Str "t1"
       /\ Js.prop r "status" = Js.Str "running".
Proof.
  split; [reflexivity|].
  destruct (unvalidated_message_is_stored default_options Sample.host
              Sample.running_text (Wire.to_value Sample.running) Sample.start
              eq_refl eq_refl eq_refl eq_refl)
    as (_ & _ & i & r & Hr & Hid & _ & Hstatus & _).
  exists i, r. split_and!; [exact Hr | exact Hid | exact Hstatus].
Defined.

(** A message with no field at all still appends a task record. *)
Example empty_object_is_stored :
  let st' := run (handleMessage default_options (Js.Obj ∅)) Sample.start in
  length (Store.tasks (store st')) = 1
  /\ Wire.recorded_status_of Js.Undefined (store st') = Some Js.Undefined.
Proof. vm_compute. split; reflexivity. Qed.

End DispatchFacts.

(** ** The connection *)

Module ConnFacts.
Import Ws Conn Dispatch DispatchFacts.

Lemma alive_app_connecting l :
  alive_sockets (l ++ [CONNECTING]) = S (alive_sockets l).
Proof. induction l as [|[] l IH]; cbn; by rewrite ?IH. Qed.

Lemma alive_alter_closing ws l :
  alive_sockets (alter start_closing ws l) = alive_sockets l.
Proof.
  revert ws. induction l as [|r l IH]; intros [|ws]; cbn; try done.
  - by destruct r.
  - destruct r; by rewrite IH.
Qed.

Lemma alive_insert_closed ws l r :
  l !! ws = Some r -> r <> CLOSED ->
  S (alive_sockets (<[ws := CLOSED]> l)) = alive_sockets l.
Proof.
  revert ws. induction l as [|x l IH]; intros [|ws]; cbn; try done.
  - intros [= ->] Hr. by destruct r.
  - intros Hl Hr. specialize (IH ws Hl Hr). destruct x; cbn;
      first [exact IH | f_equal; exact IH].
Qed.

Lemma alive_insert_open ws l :
  l !! ws = Some CONNECTING ->
  alive_sockets (<[ws := OPEN]> l) = alive_sockets l.
Proof.
  revert ws. induction l as [|x l IH]; intros [|ws]; cbn; try done.
  - by intros [= ->].
  - intros Hl. specialize (IH ws Hl). destruct x; cbn;
      first [exact IH | f_equal; exact IH].
Qed.

Lemma alive_zero_closed ws l r :
  alive_sockets l = 0 -> l !! ws = Some r -> r = CLOSED.
Proof.
  revert ws. induction l as [|x l IH]; intros [|ws]; cbn; try done.
  - destruct x; [done..|]. by intros _ [= <-].
  - destruct x; try done. apply IH.
Qed.

Lemma alter_closing_closed ws l :
  alive_sockets l = 0 -> alter start_closing ws l = l.
Proof.
  revert ws. induction l as [|x l IH]; intros [|ws]; cbn; try done.
  - by destruct x.
  - destruct x; try done. intros H. by rewrite IH.
Qed.

Lemma pending_drop_le h l :
  pending_timeouts (drop_timer h l) <= pending_timeouts l.
Proof.
  unfold drop_timer. induction l as [|[h' t] l IH]; [done|].
  rewrite filter_cons. cbn. destruct (decide (h' <> h)); destruct t; cbn; lia.
Qed.

Lemma pending_app_timeout l h d :
  pending_timeouts (l ++ [(h, Timeout d)]) = S (pending_timeouts l).
Proof. induction l as [|[h' []] l IH]; cbn; by rewrite ?IH. Qed.

Lemma pending_app_interval l h ms :
  pending_timeouts (l ++ [(h, Interval ms)]) = pending_timeouts l.
Proof. induction l as [|[h' []] l IH]; cbn; by rewrite ?IH. Qed.

Lemma timer_kind_cons h p l :
  (fun r : nat * (positive * timer) => r.2.2)
    <$> list_find (fun q : positive * timer => q.1 = h) (p :: l)
  = if decide (p.1 = h) then Some p.2
    else (fun r : nat * (positive * timer) => r.2.2)
           <$> list_find (fun q : positive * timer => q.1 = h) l.
Proof.
  cbn. destruct (decide (p.1 = h)); [done|].
  by destruct (list_find _ l) as [[]|].
Qed.

(** A timeout that fires was pending, and is not any more. *)
Lemma pending_fired h d st :
  timer_kind h st = Some (Timeout d) ->
  S (pending_timeouts (drop_timer h (timers st))) <= pending st.
Proof.
  unfold timer_kind, pending. generalize (timers st) as l.
  induction l as [|[h' t] l IH]; [done|].
  rewrite timer_kind_cons. unfold drop_timer in *. rewrite filter_cons. cbn.
  destruct (decide (h' = h)) as [->|Hne].
  - intros [= ->]. rewrite decide_False by (intros H; by apply H).
    pose proof (pending_drop_le h l) as Hle. unfold drop_timer in Hle. lia.
  - intros Hk. specialize (IH Hk). rewrite decide_True by done.
    destruct t; cbn; lia.
Qed.


Lemma pending_drop_bound h l n :
  pending_timeouts l <= n -> pending_timeouts (drop_timer h l) <= n.
Proof. pose proof (pending_drop_le h l). lia. Qed.

Ltac pending_bound :=
  unfold pending; cbn [timers];
  rewrite ?pending_app_timeout, ?pending_app_interval;
  try apply le_n_S; repeat apply pending_drop_bound; lia.

Ltac unfold_handlers :=
  cbv [run connect disconnect onopen onclose onerror heartbeat send
       JSON_stringify
       resetReconnect onvisibilitychange onMounted onUnmounted
       scheduleReconnect cancelReconnect startHeartbeat stopHeartbeat
       getReconnectDelay getWebSocketUrl new_WebSocket ws_close
       setTimeout setInterval setTimer clearTimeout clearInterval
       mbind M_bind bind mret M_ret ret modify get throw lift call when
       try_catch].

Section WithOptions.

Context (projectId : string) (options : WebSocketOptions) (host : Host).

Local Abbreviation connect := (Ws.connect projectId host).
Local Abbreviation onclose := (Ws.onclose options).
Local Abbreviation onopen := (Ws.onopen options).
Local Abbreviation onerror := (Ws.onerror options).
Local Abbreviation step := (Ws.step projectId options host).
Local Abbreviation steps := (Ws.steps projectId options host).

(** C9: with no token in storage, [connect()] returns normally, sets the
    error and does nothing else: no socket is created, no timer is set, and
    nothing leaves the composable. *)
Theorem connect_without_token (st : State) :
  token st = None ->
  connect st = (set_error (Some "未登录") st, inr tt)
  /\ error (run connect st) = Some "未登录"
  /\ sockets (run connect st) = sockets st
  /\ socket (run connect st) = socket st
  /\ connecting (run connect st) = connecting st
  /\ timers (run connect st) = timers st
  /\ log (run connect st) = log st.
Proof.
  intros Htok. unfold_handlers. rewrite Htok. cbn. done.
Qed.

(** An empty token is no token either. *)
Lemma connect_with_empty_token (st : State) :
  token st = Some "" ->
  connect st = (set_error (Some "未登录") st, inr tt).
Proof. intros Htok. unfold_handlers. by rewrite Htok. Qed.

(** [connect()] in general: it returns normally, keeps the attempt counter,
    the timers and the store, and creates at most one socket. *)
Lemma connect_effect (st : State) :
  (connect st).2 = inr tt
  /\ reconnectAttempts (run connect st) = reconnectAttempts st
  /\ timers (run connect st) = timers st
  /\ store (run connect st) = store st
  /\ (sockets (run connect st) = sockets st
      \/ sockets (run connect st) = sockets st ++ [CONNECTING]).
Proof.
  unfold_handlers.
  destruct (no_token (token st)); [cbn; auto 10|].
  destruct (is_open st); [cbn; auto 10|].
  destruct (connecting st); [cbn; auto 10|].
  cbn. destruct (url_accepted host _); cbn; auto 10.
Qed.

(** What [ws.onclose] leaves behind. *)
Lemma onclose_effect (wasClean : bool) (st : State) :
  let st' := run (onclose wasClean) st in
  sockets st' = sockets st /\ store st' = store st
  /\ connected st' = false /\ connecting st' = false
  /\ match onClose options with
     | Some Throws =>
         reconnectAttempts st' = reconnectAttempts st
         /\ pending st' <= pending st
     | _ =>
         if negb wasClean
            && (reconnectAttempts st <? MAX_RECONNECT_ATTEMPTS)%nat
         then
           reconnectAttempts st' = S (reconnectAttempts st)
           /\ pending st' <= S (pending st)
           /\ exists h,
               head (log st')
               = Some (SetTimeout h
                         (Backoff.getReconnectDelay (reconnectAttempts st)))
         else
           reconnectAttempts st' = reconnectAttempts st
           /\ pending st' <= pending st
           /\ (MAX_RECONNECT_ATTEMPTS <= reconnectAttempts st ->
               error st' = Some fatal_error
               /\ head (log st') = Some fatal_toast)
           /\ (reconnectAttempts st < MAX_RECONNECT_ATTEMPTS ->
               error st' = error st)
     end.
Proof.
  destruct st as [sock cd cg lm ra er hb rt sto tok socks tms nt lg li].
  unfold_handlers.
  destruct hb as [hb|], (onClose options) as [[]|], wasClean, rt as [rt|];
    cbn -[Nat.ltb Nat.leb];
    destruct (Nat.ltb_spec ra MAX_RECONNECT_ATTEMPTS) as [Hlt|Hge];
    cbn -[Nat.ltb Nat.leb];
    try destruct (Nat.leb_spec MAX_RECONNECT_ATTEMPTS ra);
    cbn -[Nat.ltb Nat.leb];
    split_and!; try done; try lia; try pending_bound; eauto.
Qed.

(** What [ws.onopen] leaves behind. *)
Lemma onopen_effect (st : State) :
  let st' := run onopen st in
  reconnectAttempts st' = 0 /\ connected st' = true
  /\ connecting st' = false /\ sockets st' = sockets st
  /\ store st' = store st /\ pending st' <= pending st.
Proof.
  destruct st as [sock cd cg lm ra er hb rt sto tok socks tms nt lg li].
  unfold_handlers.
  destruct hb as [hb|], (onOpen options) as [[]|]; cbn;
    split_and!; try done; pending_bound.
Qed.

(** What [ws.onerror] leaves behind. *)
Lemma onerror_effect (ws : nat) (st : State) :
  let st' := run (onerror ws) st in
  reconnectAttempts st' = reconnectAttempts st
  /\ timers st' = timers st /\ store st' = store st
  /\ (sockets st' = sockets st
      \/ sockets st' = alter start_closing ws (sockets st)).
Proof.
  destruct st as [sock cd cg lm ra er hb rt sto tok socks tms nt lg li].
  unfold_handlers.
  destruct (onError options) as [[]|]; cbn; auto.
Qed.

(** What the heartbeat callback leaves behind: at most a ping. *)
Lemma heartbeat_effect (st : State) :
  let st' := run heartbeat st in
  reconnectAttempts st' = reconnectAttempts st
  /\ timers st' = timers st /\ store st' = store st
  /\ sockets st' = sockets st.
Proof.
  unfold_handlers.
  destruct (socket st); [destruct (is_open st)|]; cbn; auto.
Qed.

(** What [disconnect()] leaves behind. *)
Lemma disconnect_effect (st : State) :
  let st' := run disconnect st in
  (disconnect st).2 = inr tt
  /\ reconnectAttempts st' = 0 /\ socket st' = None
  /\ connected st' = false /\ connecting st' = false
  /\ heartbeatTimer st' = None /\ reconnectTimer st' = None
  /\ store st' = store st /\ pending st' <= pending st
  /\ alive st' = alive st.
Proof.
  destruct st as [sock cd cg lm ra er hb rt sto tok socks tms nt lg li].
  unfold_handlers.
  destruct hb as [hb|], rt as [rt|], sock as [ws|]; cbn;
    split_and!; try done; try pending_bound;
    unfold alive; cbn; by rewrite ?alive_alter_closing.
Qed.

(** [ws.onmessage] touches the store, [lastMessage] and the log only. *)
Lemma onmessage_frame (data : string) (st : State) :
  let st' := run (onmessage options host data) st in
  reconnectAttempts st' = reconnectAttempts st
  /\ timers st' = timers st /\ sockets st' = sockets st
  /\ socket st' = socket st /\ connected st' = connected st
  /\ connecting st' = connecting st /\ error st' = error st.
Proof.
  cbv zeta. unfold run.
  destruct (JSON_parse host data) as [v|] eqn:Hp;
    [|by rewrite onmessage_malformed].
  destruct (nullish v) eqn:Hv; [by erewrite onmessage_nullish|].
  destruct (Js.strict_eq (read_opt v "type") (Js.Str "pong")) eqn:Hpong;
    [by erewrite onmessage_pong|].
  destruct (callback_returns options v) eqn:Hcb.
  - erewrite onmessage_handled by done. unfold notified.
    by destruct (onMessage options).
  - by erewrite onmessage_callback_throws.
Qed.

Lemma send_effect (data : option string) (st : State) :
  let st' := run (send data) st in
  reconnectAttempts st' = reconnectAttempts st
  /\ timers st' = timers st /\ sockets st' = sockets st
  /\ store st' = store st.
Proof.
  unfold_handlers.
  destruct (socket st); [destruct (is_open st), data|]; cbn; auto.
Qed.

(** The [visibilitychange] listener: a fresh [connect()] at once when the page
    becomes visible with the composable neither connected nor connecting. *)
Lemma onvisibilitychange_spec (visible : bool) (st : State) :
  run (onvisibilitychange projectId host visible) st
  = if visible && negb (connected st) && negb (connecting st)
    then run connect (set_error None (set_reconnectAttempts 0 st))
    else st.
Proof.
  unfold onvisibilitychange, when, resetReconnect, run.
  cbv [mbind M_bind bind get modify ret].
  by destruct visible, (connected st), (connecting st).
Qed.

(** No handler but the ones that reset it lowers the attempt counter. *)
Lemma step_attempts (ev : event) (st st' : State) :
  step ev st = Some st' ->
  reconnectAttempts st <= reconnectAttempts st'
  \/ (exists ws, ev = SocketOpen ws)
  \/ (ev = VisibilityChange true /\ listening st = true
      /\ connected st = false /\ connecting st = false)
  \/ ev = CallDisconnect \/ ev = Unmounted \/ ev = CallResetReconnect.
Proof.
  destruct ev; cbn; try (intros _; by eauto 10).
  - (* Mounted *)
    intros [= <-]. left. unfold onMounted, when.
    destruct (autoConnect options); [|done].
    by rewrite (proj1 (proj2 (connect_effect st))).
  - (* CallConnect *)
    intros [= <-]. left. by rewrite (proj1 (proj2 (connect_effect st))).
  - (* CallSend *)
    intros [= <-]. left. destruct (send_effect data st) as (-> & _). lia.
  - (* VisibilityChange *)
    destruct (listening st) eqn:Hli; [|intros [= <-]; by left].
    intros [= <-]. rewrite onvisibilitychange_spec.
    destruct visible; [|by left].
    destruct (connected st) eqn:Hcd; [by left|].
    destruct (connecting st) eqn:Hcg; [by left|]. by eauto 10.
  - (* TimeoutFires *)
    destruct (timer_kind h st) as [[]|]; [|done..].
    intros [= <-]. left.
    by rewrite (proj1 (proj2 (connect_effect _))).
  - (* IntervalFires *)
    destruct (timer_kind h st) as [[]|]; [done| |done].
    intros [= <-]. left. destruct (heartbeat_effect st) as (-> & _). lia.
  - (* SocketMessage *)
    destruct (sockets st !! ws) as [[]|]; try done.
    intros [= <-]. left. destruct (onmessage_frame data st) as (-> & _). lia.
  - (* SocketError *)
    destruct (sockets st !! ws); [|done].
    intros [= <-]. left. destruct (onerror_effect ws st) as (-> & _). lia.
  - (* SocketClose *)
    destruct (sockets st !! ws) as [[]|]; try done;
      intros [= <-]; left;
      match goal with
      | |- context [run (Ws.onclose _ ?c) ?s] =>
          destruct (onclose_effect c s) as (_ & _ & _ & _ & Hcase)
      end;
      cbn in Hcase;
      destruct (onClose options) as [[]|];
      try destruct (negb wasClean && _); cbn in Hcase; lia.
  - (* StorageSetToken *)
    intros [= <-]. by left.
Qed.

(** [connect()] with a token, no open socket and no attempt under way
    creates a socket at once. *)
Lemma connect_creates (st : State) :
  no_token (token st) = false -> is_open st = false ->
  connecting st = false ->
  url_accepted host (websocket_url projectId host (token st)) = true ->
  sockets (run connect st) = sockets st ++ [CONNECTING]
  /\ socket (run connect st) = Some (length (sockets st))
  /\ connecting (run connect st) = true
  /\ log (run connect st)
     = NewWebSocket (length (sockets st))
         (websocket_url projectId host (token st)) :: log st.
Proof.
  intros Htok Hopen Hcg Hurl. unfold_handlers.
  rewrite Htok, Hopen, Hcg. cbn. rewrite Hurl. cbn. done.
Qed.

(** [disconnect()] leaves the listener alone. *)
Lemma disconnect_listening (st : State) :
  listening (run disconnect st) = listening st.
Proof.
  destruct st as [sock cd cg lm ra er hb rt sto tok socks tms nt lg li].
  unfold_handlers. destruct hb, rt, sock; cbn; done.
Qed.

(** C7, amended: the attempt counter is reset to 0 by a successful open, by
    the page becoming visible while the listener is registered and the
    composable is neither connected nor connecting (and then [connect()]
    runs at once, the pending timer neither awaited nor cancelled), and also
    by [disconnect()] (hence on unmount) and [resetReconnect()]; no other
    event lowers it.  Unmounting removes the listener: from then on a change
    of visibility does nothing. *)
Theorem attempts_reset :
  (forall ws st st',
      step (SocketOpen ws) st = Some st' -> reconnectAttempts st' = 0)
  /\ (forall st,
        listening st = true ->
        connected st = false -> connecting st = false ->
        let st' := run connect (set_error None (set_reconnectAttempts 0 st)) in
        step (VisibilityChange true) st = Some st'
        /\ reconnectAttempts st' = 0
        /\ timers st' = timers st
        /\ (no_token (token st) = false -> is_open st = false ->
            url_accepted host (websocket_url projectId host (token st)) = true ->
            sockets st' = sockets st ++ [CONNECTING]))
  /\ (forall visible st st',
        step Unmounted st = Some st' ->
        listening st' = false
        /\ step (VisibilityChange visible) st' = Some st')
  /\ (forall ev st st',
        ev = CallDisconnect \/ ev = Unmounted \/ ev = CallResetReconnect ->
        step ev st = Some st' -> reconnectAttempts st' = 0)
  /\ (forall ev st st',
        step ev st = Some st' ->
        reconnectAttempts st' < reconnectAttempts st ->
        (exists ws, ev = SocketOpen ws)
        \/ (ev = VisibilityChange true /\ listening st = true
            /\ connected st = false /\ connecting st = false)
        \/ ev = CallDisconnect \/ ev = Unmounted \/ ev = CallResetReconnect).
Proof.
  split_and!.
  - intros ws st st'. cbn. destruct (sockets st !! ws) as [[]|]; try done.
    intros [= <-]. by destruct (onopen_effect (set_sockets (<[ws:=OPEN]> (sockets st)) st)).
  - intros st Hli Hcd Hcg st'. subst st'. split_and!.
    + unfold Ws.step. by rewrite Hli, onvisibilitychange_spec, Hcd, Hcg.
    + by rewrite (proj1 (proj2 (connect_effect _))).
    + by rewrite (proj1 (proj2 (proj2 (connect_effect _)))).
    + intros Htok Hopen Hurl.
      by destruct (connect_creates (set_error None (set_reconnectAttempts 0 st))
                     Htok Hopen Hcg Hurl) as (-> & _).
  - intros visible st st'. unfold Ws.step, onUnmounted. intros [= <-].
    assert (listening (run disconnect (set_listening false st)) = false)
      as Hli by (by rewrite disconnect_listening).
    by rewrite Hli.
  - intros ev st st' [->|[->| ->]]; unfold Ws.step, onUnmounted; intros [= <-].
    + by destruct (disconnect_effect st) as (_ & -> & _).
    + by destruct (disconnect_effect (set_listening false st)) as (_ & -> & _).
    + done.
  - intros ev st st' Hstep Hlt.
    destruct (step_attempts ev st st' Hstep) as [Hle|Hreset]; [lia|done].
Qed.

(** One automatic event, in numbers.  Anything but an abnormal close keeps
    the attempt counter and does not add to what can still reconnect; an
    abnormal close ends the one live socket and either schedules the next
    attempt or, at the ceiling, gives up. *)
Lemma step_automatic (ev : event) (st st' : State) :
  automatic ev = true -> step ev st = Some st' -> single st ->
  (abnormal_close ev = false
   /\ alive st' + pending st' <= alive st + pending st
   /\ reconnectAttempts st' = reconnectAttempts st)
  \/ (abnormal_close ev = true
      /\ alive st = 1 /\ pending st = 0 /\ alive st' = 0
      /\ ((onClose options = Some Throws /\ pending st' = 0)
          \/ (onClose options <> Some Throws
              /\ ((reconnectAttempts st < MAX_RECONNECT_ATTEMPTS
                   /\ reconnectAttempts st' = S (reconnectAttempts st)
                   /\ pending st' <= 1)
                  \/ (MAX_RECONNECT_ATTEMPTS <= reconnectAttempts st
                      /\ reconnectAttempts st' = reconnectAttempts st
                      /\ pending st' = 0
                      /\ error st' = Some fatal_error
                      /\ head (log st') = Some fatal_toast
                      /\ connected st' = false
                      /\ connecting st' = false))))).
Proof.
  unfold single. destruct ev as [| | | | | | |h|h|ws|ws data|ws|ws []|];
    try done; intros _; unfold Ws.step.
  - (* TimeoutFires *)
    destruct (timer_kind h st) as [[d|]|] eqn:Hk; try done.
    intros [= <-] Hsingle. left. split; [done|].
    pose proof (pending_fired _ _ _ Hk) as Hfired.
    destruct (connect_effect (set_timers (drop_timer h (timers st)) st))
      as (_ & -> & Htimers & _ & Hsockets).
    split; [|done]. unfold alive, pending. rewrite Htimers. cbn [timers].
    destruct Hsockets as [-> | ->]; cbn [sockets];
      rewrite ?alive_app_connecting; unfold alive, pending in *;
      cbn [sockets timers set_timers] in *; lia.
  - (* IntervalFires *)
    destruct (timer_kind h st) as [[]|]; try done.
    intros [= <-] _. left.
    destruct (heartbeat_effect st) as (-> & Ht & _ & Hs).
    unfold alive, pending. by rewrite Ht, Hs.
  - (* SocketMessage *)
    destruct (sockets st !! ws) as [[]|]; try done.
    intros [= <-] _. left.
    destruct (onmessage_frame data st) as (-> & Ht & Hs & _).
    unfold alive, pending. by rewrite Ht, Hs.
  - (* SocketError *)
    destruct (sockets st !! ws); try done.
    intros [= <-] _. left.
    destruct (onerror_effect ws st) as (-> & Ht & _ & Hs).
    unfold alive, pending. rewrite Ht.
    destruct Hs as [-> | ->]; by rewrite ?alive_alter_closing.
  - (* SocketClose, abnormal *)
    destruct (sockets st !! ws) as [r|] eqn:Hws; [|done].
    assert (r <> CLOSED ->
            Some (run (onclose false)
                    (set_sockets (<[ws:=CLOSED]> (sockets st)) st)) = Some st' ->
            alive st + pending st <= 1 ->
            (abnormal_close (SocketClose ws false) = false
             /\ alive st' + pending st' <= alive st + pending st
             /\ reconnectAttempts st' = reconnectAttempts st)
            \/ (abnormal_close (SocketClose ws false) = true
                /\ alive st = 1 /\ pending st = 0 /\ alive st' = 0
                /\ ((onClose options = Some Throws /\ pending st' = 0)
                    \/ (onClose options <> Some Throws
                        /\ ((reconnectAttempts st < MAX_RECONNECT_ATTEMPTS
                             /\ reconnectAttempts st' = S (reconnectAttempts st)
                             /\ pending st' <= 1)
                            \/ (MAX_RECONNECT_ATTEMPTS <= reconnectAttempts st
                                /\ reconnectAttempts st' = reconnectAttempts st
                                /\ pending st' = 0
                                /\ error st' = Some fatal_error
                                /\ head (log st') = Some fatal_toast
                                /\ connected st' = false
                                /\ connecting st' = false)))))) as Hclose;
      [|destruct r; first [done | by apply Hclose]].
    intros Hr [= <-] Hsingle. right.
    pose proof (alive_insert_closed _ _ _ Hws Hr) as Halive.
    set (s1 := set_sockets (<[ws:=CLOSED]> (sockets st)) st).
    destruct (onclose_effect false s1) as (Hs & _ & Hcd & Hcg & Hcase).
    change (reconnectAttempts s1) with (reconnectAttempts st) in Hcase.
    change (pending s1) with (pending st) in Hcase.
    cbn [negb andb] in Hcase.
    assert (alive (run (onclose false) s1) = alive_sockets (<[ws:=CLOSED]> (sockets st)))
      as Ha by (unfold alive; by rewrite Hs).
    unfold alive in *. split_and!; [done|lia|lia|lia|].
    destruct (onClose options) as [[]|] eqn:Hcb.
    + right. split; [done|].
      destruct (Nat.ltb_spec (reconnectAttempts st) MAX_RECONNECT_ATTEMPTS).
      * left. destruct Hcase as (? & ? & _). split_and!; [done..|lia].
      * right. destruct Hcase as (? & ? & Hfatal & _).
        destruct (Hfatal ltac:(done)). split_and!; try done; lia.
    + left. split; [done|]. destruct Hcase. lia.
    + right. split; [done|].
      destruct (Nat.ltb_spec (reconnectAttempts st) MAX_RECONNECT_ATTEMPTS).
      * left. destruct Hcase as (? & ? & _). split_and!; [done..|lia].
      * right. destruct Hcase as (? & ? & Hfatal & _).
        destruct (Hfatal ltac:(done)). split_and!; try done; lia.
Qed.

Lemma steps_app (evs1 evs2 : list event) (st : State) :
  steps (evs1 ++ evs2) st
  = match steps evs1 st with
    | Some st1 => steps evs2 st1
    | None => None
    end.
Proof.
  revert st. induction evs1 as [|ev evs1 IH]; intros st; cbn; [done|].
  destruct (step ev st); [apply IH | done].
Qed.

(** Along automatic events, as long as something can still reconnect, the
    attempt counter is the number of abnormal closes seen. *)
Lemma steps_on_track (evs : list event) (k : nat) (st st' : State) :
  forallb automatic evs = true -> steps evs st = Some st' ->
  on_track options k st -> on_track options (abnormal_closes evs + k) st'.
Proof.
  revert k st. induction evs as [|ev evs IH]; intros k st; cbn.
  - by intros _ [= <-].
  - intros [Hev Hevs]%andb_prop.
    destruct (step ev st) as [s1|] eqn:Hstep; [|done].
    intros Hrest [Hsingle Hk].
    assert (on_track options ((if abnormal_close ev then 1 else 0) + k) s1)
      as Hs1.
    { unfold on_track, single in *.
      destruct (step_automatic ev st s1 Hev Hstep Hsingle)
        as [(-> & Hsum & Hatt)
           |(-> & Ha & Hp & Ha' & [[Hcb Hp']|[Hcb [(Hlt & Hatt & Hp')|Hfail]]])].
      - split; [lia|]. intros H1. rewrite Hatt. apply Hk. lia.
      - split; [lia|]. intros H1. lia.
      - split; [lia|]. intros H1. rewrite Hatt.
        destruct Hk as [-> _]; [lia|]. split; [lia|done].
      - destruct Hfail as (_ & _ & Hp' & _). split; [lia|]. intros H1. lia. }
    specialize (IH _ _ Hevs Hrest Hs1).
    by replace (abnormal_closes evs + ((if abnormal_close ev then 1 else 0) + k))
      with ((if abnormal_close ev then 1 else 0) + abnormal_closes evs + k)
      in IH by lia.
Qed.

(** Once nothing is alive and nothing is pending, the browser alone brings
    nothing back. *)
Lemma step_dead (ev : event) (st st' : State) :
  from_browser ev = true -> alive st = 0 -> pending st = 0 ->
  step ev st = Some st' ->
  sockets st' = sockets st /\ pending st' = 0
  /\ reconnectAttempts st' = reconnectAttempts st.
Proof.
  destruct ev as [| | | | | | |h|h|ws|ws data|ws|ws c|];
    try done; intros _ Ha Hp; unfold Ws.step.
  - destruct (timer_kind h st) as [[d|]|] eqn:Hk; try done.
    pose proof (pending_fired _ _ _ Hk). lia.
  - destruct (timer_kind h st) as [[]|]; try done. intros [= <-].
    destruct (heartbeat_effect st) as (-> & Ht & _ & ->).
    unfold pending in *. by rewrite Ht.
  - destruct (sockets st !! ws) as [r|] eqn:Hws; [|done].
    by rewrite (alive_zero_closed _ _ _ Ha Hws).
  - destruct (sockets st !! ws) as [r|] eqn:Hws; [|done].
    by rewrite (alive_zero_closed _ _ _ Ha Hws).
  - destruct (sockets st !! ws) as [r|] eqn:Hws; [|done]. intros [= <-].
    destruct (onerror_effect ws st) as (-> & Ht & _ & Hs).
    unfold pending in *. rewrite Ht.
    destruct Hs as [-> | ->]; by rewrite ?alter_closing_closed.
  - destruct (sockets st !! ws) as [r|] eqn:Hws; [|done].
    by rewrite (alive_zero_closed _ _ _ Ha Hws).
Qed.

Lemma steps_dead (evs : list event) (st st' : State) :
  forallb from_browser evs = true -> alive st = 0 -> pending st = 0 ->
  steps evs st = Some st' ->
  sockets st' = sockets st /\ pending st' = 0
  /\ reconnectAttempts st' = reconnectAttempts st.
Proof.
  revert st. induction evs as [|ev evs IH]; intros st; cbn.
  - by intros _ _ Hp [= <-].
  - intros [Hev Hevs]%andb_prop Ha Hp.
    destruct (step ev st) as [s1|] eqn:Hstep; [|done]. intros Hrest.
    destruct (step_dead ev st s1 Hev Ha Hp Hstep) as (Hs & Hp1 & Hatt).
    destruct (IH s1 Hevs) as (-> & -> & ->); try done.
    unfold alive. by rewrite Hs.
Qed.

(** [ws.onclose] on an abnormal close below the ceiling. *)
Lemma onclose_schedules st :
  onClose options <> Some Throws ->
  reconnectAttempts st < MAX_RECONNECT_ATTEMPTS ->
  let st' := run (onclose false) st in
  reconnectTimer st' = Some (next_timer st)
  /\ (next_timer st,
      Timeout (Backoff.getReconnectDelay (reconnectAttempts st))) ∈ timers st'
  /\ reconnectAttempts st' = S (reconnectAttempts st).
Proof.
  intros Hcb Hlt.
  destruct st as [sock cd cg lm ra er hb rt sto tok socks tms nt lg li].
  cbn in Hlt. apply Nat.ltb_lt in Hlt.
  unfold_handlers.
  destruct hb as [hb|], (onClose options) as [[]|], rt as [rt|]; try done;
    cbn -[Nat.ltb Nat.leb drop_timer]; rewrite Hlt;
    cbn -[Nat.ltb Nat.leb drop_timer];
    (split_and!; [done| |done]); apply elem_of_app; right; by left.
Qed.

Lemma pending_elem h d (l : list (positive * timer)) :
  (h, Timeout d) ∈ l -> 0 < pending_timeouts l.
Proof.
  induction l as [|[h' t] l IH]; [by intros ?%elem_of_nil|].
  intros [[= <- <-]|Hin]%elem_of_cons; cbn; [lia|].
  specialize (IH Hin). destruct t; lia.
Qed.

(** What the close event of a live socket runs. *)
Lemma step_close (ws : nat) (wasClean : bool) (st st' : State) :
  step (SocketClose ws wasClean) st = Some st' ->
  st' = run (onclose wasClean) (set_sockets (<[ws:=CLOSED]> (sockets st)) st).
Proof.
  unfold Ws.step. destruct (sockets st !! ws) as [[]|]; try done;
    by intros [= <-].
Qed.

(** C2, amended: starting from [attempts = 0] with one line of retry and an
    [onClose] callback that returns, each of the first [maxAttempts]
    abnormal closes in a row schedules a retry: the [k+1]-th leaves the
    counter at [k+1], nothing alive and one timer pending, of
    [1000 * 2^k] ms, held by [reconnectTimer].  The abnormal close that
    follows [maxAttempts] of them, the sixth, gives up: the error is set, the
    toast is shown, nothing is alive and no timer is pending; and from there
    no event of the browser creates a socket or leaves a reconnect
    pending. *)
Theorem reconnect_ceiling (st : State) (evs : list event) (ws : nat)
    (st' : State) :
  onClose options <> Some Throws ->
  reconnectAttempts st = 0 -> single st ->
  forallb automatic evs = true ->
  steps (evs ++ [SocketClose ws false]) st = Some st' ->
  (abnormal_closes evs < MAX_RECONNECT_ATTEMPTS ->
   reconnectAttempts st' = S (abnormal_closes evs)
   /\ alive st' = 0 /\ pending st' = 1
   /\ exists h,
        reconnectTimer st' = Some h
        /\ (h, Timeout
                 (Backoff.Fin (1000 * 2 ^ Z.of_nat (abnormal_closes evs))))
           ∈ timers st')
  /\ (abnormal_closes evs = MAX_RECONNECT_ATTEMPTS ->
      Failed st' /\ head (log st') = Some fatal_toast
      /\ forall evs' st'',
           forallb from_browser evs' = true -> steps evs' st' = Some st'' ->
           sockets st'' = sockets st' /\ pending st'' = 0
           /\ reconnectAttempts st'' = MAX_RECONNECT_ATTEMPTS).
Proof.
  intros Hcb Hatt Hsingle Hauto. rewrite steps_app.
  destruct (steps evs st) as [s5|] eqn:Hrun; [|done].
  cbn [Ws.steps]. destruct (step (SocketClose ws false) s5) as [s6|] eqn:Hlast;
    [|done]. intros [= <-].
  assert (on_track options 0 st) as Hstart.
  { split; [done|]. intros _. split; [done|lia]. }
  pose proof (steps_on_track evs 0 st s5 Hauto Hrun Hstart) as [Hs5 Hk].
  rewrite Nat.add_0_r in Hk.
  destruct (step_automatic (SocketClose ws false) s5 s6 eq_refl Hlast Hs5)
    as [(? & _)|(_ & Ha & Hp & Ha' & Hcases)]; [done|].
  destruct Hk as [Hatt5 _]; [lia|].
  destruct Hcases as [[Hthrows _]|[_ Hcases]]; [done|].
  split.
  - intros Hlt.
    destruct Hcases as [(_ & Hatt6 & Hp6)|(Hge & _)]; [|lia].
    pose proof (step_close _ _ _ _ Hlast) as ->.
    destruct (onclose_schedules
                (set_sockets (<[ws:=CLOSED]> (sockets s5)) s5) Hcb)
      as (Hrt & Hin & _); [by rewrite <- Hatt5 in Hlt|].
    cbn [reconnectAttempts set_sockets] in Hin.
    rewrite Hatt5, BackoffFacts.delay_closed_form in Hin.
    assert (2 ^ Z.of_nat (abnormal_closes evs) <= 2 ^ 4)%Z as Hpow
      by (apply Z.pow_le_mono_r; unfold MAX_RECONNECT_ATTEMPTS in Hlt; lia).
    change (2 ^ 4)%Z with 16%Z in Hpow.
    rewrite Z.min_l in Hin
      by (unfold Backoff.BASE_RECONNECT_DELAY, Backoff.MAX_RECONNECT_DELAY;
          lia).
    pose proof (pending_elem _ _ _ Hin) as Hpos. unfold pending in *.
    split_and!; [by rewrite Hatt6, Hatt5 | done | lia |].
    eexists. split; [exact Hrt | exact Hin].
  - intros Hcloses.
    destruct Hcases as [(Hlt & _)|Hfail]; [lia|].
    destruct Hfail as (_ & Hatt6 & Hp6 & Herr & Htoast & Hcd & Hcg).
    assert (Failed s6) as Hfailed.
    { unfold Failed. split_and!; try done. by rewrite Hatt6, Hatt5. }
    split_and!; [done..|].
    intros evs' st'' Hbrowser Hrun'.
    destruct Hfailed as (_ & Hatt6' & _ & _ & Ha6 & Hp6').
    destruct (steps_dead evs' s6 st'' Hbrowser Ha6 Hp6' Hrun') as (? & ? & ->).
    done.
Qed.

End WithOptions.

(** The text of C7 has the counter reset exactly on an open and on the page
    becoming visible.  After one failed connection the counter is 1, and
    [disconnect()] puts it back to 0. *)
Lemma disconnect_resets_attempts :
  reconnectAttempts <$> Sample.go [Mounted; SocketClose 0 false] Sample.start
  = Some 1
  /\ reconnectAttempts
       <$> Sample.go [Mounted; SocketClose 0 false; CallDisconnect] Sample.start
     = Some 0.
Proof. vm_compute. split; reflexivity. Qed.

(** The text of C2 has the composable give up after exactly five abnormal
    closes, from any state with no attempt counted.  With one line of retry,
    after the fifth close the counter is 5, no error is set and the retry at
    16000 ms is pending; when it fires a sixth socket is created.  With two
    sockets alive (a [connect()] right after a [disconnect()]), six abnormal
    closes in a row show the toast while the retry at 16000 ms is still
    pending; when it fires a seventh socket is created. *)
Lemma ceiling_counterexamples :
  let five := Sample.go Sample.five_failures Sample.mounted in
  let then_fires := Sample.go (Sample.five_failures ++ [TimeoutFires 5])
                      Sample.mounted in
  let crowded := Sample.go Scenario.two_lines Sample.start in
  let shown := Sample.go (Scenario.two_lines ++ Scenario.six_closes)
                 Sample.start in
  let later := Sample.go (Scenario.two_lines ++ Scenario.six_closes
                          ++ [TimeoutFires 5]) Sample.start in
  (abnormal_closes Sample.five_failures = 5
   /\ reconnectAttempts <$> five = Some 5
   /\ error <$> five = Some None
   /\ timers <$> five = Some [(5%positive, Timeout (Backoff.Fin 16000))]
   /\ sockets <$> then_fires
      = Some [CLOSED; CLOSED; CLOSED; CLOSED; CLOSED; CONNECTING])
  /\ (reconnectAttempts <$> crowded = Some 0
      /\ sockets <$> crowded = Some [CLOSING; CONNECTING]
      /\ forallb automatic Scenario.six_closes = true
      /\ abnormal_closes Scenario.six_closes = 6
      /\ error <$> shown = Some (Some fatal_error)
      /\ (fun s => head (log s)) <$> shown = Some (Some fatal_toast)
      /\ timers <$> shown = Some [(5%positive, Timeout (Backoff.Fin 16000))]
      /\ sockets <$> later
         = Some [CLOSED; CLOSED; CLOSED; CLOSED; CLOSED; CLOSED; CONNECTING]).
Proof. vm_compute. split_and!; reflexivity. Qed.

Lemma reconnect_ceiling_witness :
  reconnectAttempts Sample.mounted = 0
  /\ single Sample.mounted
  /\ abnormal_closes Sample.six_failures = 6
  /\ Sample.go Sample.six_failures Sample.mounted = Some Sample.gave_up
  /\ Failed Sample.gave_up
  /\ head (log Sample.gave_up) = Some fatal_toast
  /\ Sample.go [SocketClose 0 false] Sample.mounted = Some Scenario.refused
  /\ reconnectAttempts Scenario.refused = 1
  /\ pending Scenario.refused = 1.
Proof.
  assert (single Sample.mounted) as Hsingle
    by (vm_compute; repeat constructor).
  destruct (reconnect_ceiling "p1" default_options Sample.host Sample.mounted
              (Sample.five_failures ++ [TimeoutFires 5]) 5 Sample.gave_up
              ltac:(discriminate) eq_refl Hsingle eq_refl eq_refl)
    as (_ & Hsixth).
  destruct (Hsixth eq_refl) as (Hfailed & Htoast & _).
  destruct (reconnect_ceiling "p1" default_options Sample.host Sample.mounted
              [] 0 Scenario.refused
              ltac:(discriminate) eq_refl Hsingle eq_refl eq_refl)
    as (Hfirst & _).
  destruct (Hfirst ltac:(vm_compute; lia)) as (Hatt & _ & Hp & _).
  split_and!; [reflexivity | exact Hsingle | reflexivity
              | vm_compute; reflexivity | exact Hfailed | exact Htoast
              | vm_compute; reflexivity | exact Hatt | exact Hp].
Defined.

Lemma connect_without_token_witness :
  token (initial None Sample.store0) = None
  /\ error (run (connect "p1" Sample.host) (initial None Sample.store0))
     = Some "未登录"
  /\ sockets (run (connect "p1" Sample.host) (initial None Sample.store0)) = []
  /\ log (run (connect "p1" Sample.host) (initial None Sample.store0)) = [].
Proof.
  split; [reflexivity|].
  destruct (connect_without_token "p1" Sample.host
              (initial None Sample.store0) eq_refl)
    as (_ & Herr & Hsockets & _ & _ & _ & Hlog).
  split_and!; [exact Herr | exact Hsockets | exact Hlog].
Defined.

(** C4 at its failing input: the view mounts, [disconnect()] is called while
    the socket is still connecting, and the browser fails that connection: an
    error event, then a close event with [wasClean = false].  [ws.onclose]
    then schedules a reconnect and, a second later, the timer opens a new
    socket. *)
Lemma reconnect_after_disconnect :
  let url := "wss://app.example/api/v1/ws/tasks/p1?token=token" in
  log <$> Sample.go [Mounted; CallDisconnect] Sample.start
  = Some [WsClose 0 (Some (1000%Z, "Client disconnect")); NewWebSocket 0 url]
  /\ timers <$> Sample.go [Mounted; CallDisconnect; SocketError 0;
                           SocketClose 0 false] Sample.start
     = Some [(1%positive, Timeout (Backoff.Fin 1000))]
  /\ sockets <$> Sample.go [Mounted; CallDisconnect; SocketError 0;
                            SocketClose 0 false; TimeoutFires 1] Sample.start
     = Some [CLOSED; CONNECTING]
  /\ head <$> (log <$> Sample.go [Mounted; CallDisconnect; SocketError 0;
                                  SocketClose 0 false; TimeoutFires 1]
                         Sample.start)
     = Some (Some (NewWebSocket 1 url)).
Proof. vm_compute. split_and!; reflexivity. Qed.

End ConnFacts.

(** ** Timer hygiene *)

Module TimerFacts.
Import Ws Conn ConnFacts.

Lemma elem_of_drop_timer h p l :
  p ∈ drop_timer h l <-> p.1 <> h /\ p ∈ l.
Proof. unfold drop_timer. by rewrite list_elem_of_filter. Qed.

Lemma tracked_drop h hb rt l :
  tracked_as hb rt l -> tracked_as hb rt (drop_timer h l).
Proof. intros H h' t [_ Hin]%elem_of_drop_timer. by apply H. Qed.

Lemma tracked_cancel_timeout hb rt l :
  tracked_as hb rt l ->
  tracked_as hb None (match rt with Some h => drop_timer h l | None => l end).
Proof.
  intros H h' t Hin. destruct rt as [h|].
  - apply elem_of_drop_timer in Hin as [Hne Hin]. cbn in Hne.
    specialize (H h' t Hin). destruct t; [congruence|done].
  - specialize (H h' t Hin). by destruct t.
Qed.

Lemma tracked_cancel_interval hb rt l :
  tracked_as hb rt l ->
  tracked_as None rt (match hb with Some h => drop_timer h l | None => l end).
Proof.
  intros H h' t Hin. destruct hb as [h|].
  - apply elem_of_drop_timer in Hin as [Hne Hin]. cbn in Hne.
    specialize (H h' t Hin). destruct t; [done|congruence].
  - specialize (H h' t Hin). by destruct t.
Qed.

Lemma tracked_add_timeout hb l h d :
  tracked_as hb None l -> tracked_as hb (Some h) (l ++ [(h, Timeout d)]).
Proof.
  intros H h' t [Hin|Hin]%elem_of_app.
  - specialize (H h' t Hin). by destruct t.
  - apply list_elem_of_singleton in Hin as [= -> ->]. done.
Qed.

Lemma tracked_add_interval rt l h ms :
  tracked_as None rt l -> tracked_as (Some h) rt (l ++ [(h, Interval ms)]).
Proof.
  intros H h' t [Hin|Hin]%elem_of_app.
  - specialize (H h' t Hin). by destruct t.
  - apply list_elem_of_singleton in Hin as [= -> ->]. done.
Qed.

Lemma tracked_nothing_left hb rt l :
  tracked_as hb rt l ->
  match hb with Some h => drop_timer h | None => id end
    (match rt with Some h => drop_timer h l | None => l end) = [].
Proof.
  intros H. apply elem_of_nil_inv. intros [h t] Hin.
  assert ((h, t) ∈ l /\ (forall x, hb = Some x -> h <> x)
          /\ (forall x, rt = Some x -> h <> x)) as (Hl & Hhb & Hrt).
  { destruct hb as [a|], rt as [b|]; cbn in Hin;
      repeat (apply elem_of_drop_timer in Hin as [? Hin]); cbn in *;
      split_and!; try done; intros x [= <-]; done. }
  specialize (H h t Hl). destruct t; [by eapply Hrt | by eapply Hhb].
Qed.

Lemma tracked_stop h rt l :
  tracked_as (Some h) rt l -> tracked_as None rt (drop_timer h l).
Proof. apply (tracked_cancel_interval (Some h)). Qed.

Lemma tracked_cancel h hb l :
  tracked_as hb (Some h) l -> tracked_as hb None (drop_timer h l).
Proof. apply (tracked_cancel_timeout hb (Some h)). Qed.

Create HintDb tracked.

#[local] Hint Resolve tracked_drop tracked_stop tracked_cancel
  tracked_add_timeout tracked_add_interval : tracked.

Ltac tracked_goal :=
  unfold tracked; cbn -[drop_timer]; eauto 6 with tracked.

Section WithOptions.

Context (projectId : string) (options : WebSocketOptions) (host : Host).

Lemma connect_tracked st :
  tracked st -> tracked (run (connect projectId host) st).
Proof.
  assert (heartbeatTimer (run (connect projectId host) st) = heartbeatTimer st
          /\ reconnectTimer (run (connect projectId host) st)
             = reconnectTimer st
          /\ timers (run (connect projectId host) st) = timers st)
    as (Hhb & Hrt & Ht).
  { unfold_handlers.
    destruct (no_token (token st)); [cbn; auto|].
    destruct (is_open st); [cbn; auto|].
    destruct (connecting st); [cbn; auto|].
    cbn. destruct (url_accepted host _); cbn; auto. }
  unfold tracked. by rewrite Hhb, Hrt, Ht.
Qed.

Lemma onopen_tracked st : tracked st -> tracked (run (onopen options) st).
Proof.
  destruct st as [sock cd cg lm ra er hb rt sto tok socks tms nt lg li].
  unfold_handlers.
  destruct hb as [hb|], (onOpen options) as [[]|]; cbn -[drop_timer];
    tracked_goal.
Qed.

Lemma onclose_tracked c st :
  tracked st -> tracked (run (onclose options c) st).
Proof.
  destruct st as [sock cd cg lm ra er hb rt sto tok socks tms nt lg li].
  unfold_handlers.
  destruct hb as [hb|], (onClose options) as [[]|], c, rt as [rt|];
    cbn -[Nat.ltb Nat.leb drop_timer];
    destruct (ra <? MAX_RECONNECT_ATTEMPTS)%nat;
    cbn -[Nat.ltb Nat.leb drop_timer];
    try destruct (MAX_RECONNECT_ATTEMPTS <=? ra)%nat;
    cbn -[Nat.ltb Nat.leb drop_timer]; tracked_goal.
Qed.

Lemma onerror_tracked ws st :
  tracked st -> tracked (run (onerror options ws) st).
Proof.
  destruct st as [sock cd cg lm ra er hb rt sto tok socks tms nt lg li].
  unfold_handlers. destruct (onError options) as [[]|]; cbn; tracked_goal.
Qed.

Lemma heartbeat_cases st :
  run heartbeat st = st
  \/ exists ws, run heartbeat st = emit (WsSend ws ping) st.
Proof.
  unfold run, heartbeat, when. cbv [mbind M_bind bind get modify ret].
  destruct (socket st); [destruct (is_open st)|]; cbn; eauto.
Qed.

Lemma heartbeat_tracked st : tracked st -> tracked (run heartbeat st).
Proof. by destruct (heartbeat_cases st) as [-> | [ws ->]]. Qed.

Lemma send_cases data st :
  run (send data) st = st
  \/ exists ws payload, run (send data) st = emit (WsSend ws payload) st.
Proof.
  unfold run, send, JSON_stringify.
  cbv [mbind M_bind bind get modify ret mret M_ret throw].
  destruct (socket st); [destruct (is_open st), data|]; cbn; eauto.
Qed.

Lemma send_tracked data st : tracked st -> tracked (run (send data) st).
Proof. by destruct (send_cases data st) as [-> | (ws & payload & ->)]. Qed.

Lemma onmessage_tracked data st :
  tracked st -> tracked (run (onmessage options host data) st).
Proof.
  unfold run.
  destruct (JSON_parse host data) as [v|] eqn:Hp;
    [|by rewrite DispatchFacts.onmessage_malformed].
  destruct (Dispatch.nullish v) eqn:Hv;
    [by erewrite DispatchFacts.onmessage_nullish|].
  destruct (Js.strict_eq (read_opt v "type") (Js.Str "pong")) eqn:Hpong;
    [by erewrite DispatchFacts.onmessage_pong|].
  destruct (Dispatch.callback_returns options v) eqn:Hcb.
  - erewrite DispatchFacts.onmessage_handled by done. unfold Dispatch.notified.
    by destruct (onMessage options).
  - by erewrite DispatchFacts.onmessage_callback_throws.
Qed.

(** What [disconnect()] does, in full: the reconnect timer is cleared, then
    the heartbeat, and only then is the socket closed with code 1000. *)
Lemma disconnect_spec st :
  let cleared_timeout :=
    match reconnectTimer st with Some h => [ClearTimeout h] | None => [] end in
  let cleared_interval :=
    match heartbeatTimer st with Some h => [ClearInterval h] | None => [] end in
  let closed :=
    match socket st with
    | Some ws => [WsClose ws (Some (1000%Z, "Client disconnect"))]
    | None => []
    end in
  log (run disconnect st)
  = closed ++ cleared_interval ++ cleared_timeout ++ log st
  /\ timers (run disconnect st)
     = match heartbeatTimer st with Some h => drop_timer h | None => id end
         (match reconnectTimer st with
          | Some h => drop_timer h (timers st)
          | None => timers st
          end)
  /\ sockets (run disconnect st)
     = match socket st with
       | Some ws => alter start_closing ws (sockets st)
       | None => sockets st
       end.
Proof.
  destruct st as [sock cd cg lm ra er hb rt sto tok socks tms nt lg li].
  unfold_handlers. destruct hb, rt, sock; cbn; done.
Qed.

Lemma disconnect_clears st :
  tracked st ->
  timers (run disconnect st) = []
  /\ heartbeatTimer (run disconnect st) = None
  /\ reconnectTimer (run disconnect st) = None.
Proof.
  intros Htracked.
  destruct (disconnect_spec st) as (_ & -> & _).
  destruct (disconnect_effect st) as (_ & _ & _ & _ & _ & -> & -> & _).
  split_and!; try done. by apply tracked_nothing_left.
Qed.

Lemma disconnect_tracked st : tracked st -> tracked (run disconnect st).
Proof.
  intros (Ht & _ & _)%disconnect_clears. unfold tracked. rewrite Ht.
  by intros h t Hin%elem_of_nil.
Qed.

(** Every handler keeps the timers tracked. *)
Lemma step_tracked ev st st' :
  step projectId options host ev st = Some st' -> tracked st -> tracked st'.
Proof.
  destruct ev; unfold step.
  - intros [= <-]. unfold onMounted, when.
    destruct (autoConnect options); [apply connect_tracked | done].
  - intros [= <-] H. by apply (disconnect_tracked (set_listening false st)).
  - intros [= <-]. apply connect_tracked.
  - intros [= <-]. apply disconnect_tracked.
  - intros [= <-]. apply send_tracked.
  - by intros [= <-].
  - destruct (listening st); [|by intros [= <-]].
    intros [= <-]. rewrite onvisibilitychange_spec.
    destruct (_ && _); [|done]. intros H. by apply connect_tracked.
  - destruct (timer_kind h st) as [[]|]; try done. intros [= <-] H.
    apply connect_tracked. revert H. tracked_goal.
  - destruct (timer_kind h st) as [[]|]; try done. intros [= <-].
    apply heartbeat_tracked.
  - destruct (sockets st !! ws) as [[]|]; try done. intros [= <-] H.
    by apply onopen_tracked.
  - destruct (sockets st !! ws) as [[]|]; try done. intros [= <-].
    apply onmessage_tracked.
  - destruct (sockets st !! ws); try done. intros [= <-].
    apply onerror_tracked.
  - destruct (sockets st !! ws) as [[]|]; try done; intros [= <-] H;
      by apply onclose_tracked.
  - by intros [= <-].
Qed.

Lemma steps_tracked evs st st' :
  steps projectId options host evs st = Some st' -> tracked st -> tracked st'.
Proof.
  revert st. induction evs as [|ev evs IH]; intros st; cbn.
  - by intros [= <-].
  - destruct (step projectId options host ev st) as [s1|] eqn:Hstep; [|done].
    intros Hrest Hst. apply (IH s1 Hrest). by eapply step_tracked.
Qed.

(** Timer hygiene: in any state the composable can reach, [disconnect()]
    leaves no timer pending, neither heartbeat nor reconnect, and it has
    cleared them before closing the socket. *)
Theorem disconnect_leaves_no_timer tok s evs st :
  steps projectId options host evs (initial tok s) = Some st ->
  timers (run disconnect st) = []
  /\ heartbeatTimer (run disconnect st) = None
  /\ reconnectTimer (run disconnect st) = None
  /\ socket (run disconnect st) = None.
Proof.
  intros Hrun.
  assert (tracked st) as Htracked.
  { apply (steps_tracked _ _ _ Hrun). by intros h t Hin%elem_of_nil. }
  destruct (disconnect_clears st Htracked) as (-> & -> & ->).
  by destruct (disconnect_effect st) as (_ & _ & -> & _).
Qed.

(** After [disconnect()], a close reported as clean schedules nothing. *)
Lemma clean_close_after_disconnect tok s evs st ws st' :
  steps projectId options host evs (initial tok s) = Some st ->
  step projectId options host (SocketClose ws true) (run disconnect st)
  = Some st' ->
  timers st' = [] /\ reconnectAttempts st' = 0
  /\ length (sockets st') = length (sockets st).
Proof.
  intros Hrun Hstep.
  destruct (disconnect_leaves_no_timer _ _ _ _ Hrun) as (Ht & Hhb & Hrt & _).
  destruct (disconnect_effect st) as (_ & Hatt & _).
  destruct (disconnect_spec st) as (_ & _ & Hsockets).
  revert Hstep. unfold step.
  destruct (sockets (run disconnect st) !! ws) as [r|]; [|done].
  set (s1 := set_sockets _ _).
  assert (timers s1 = [] /\ heartbeatTimer s1 = None
          /\ reconnectAttempts s1 = 0
          /\ length (sockets s1) = length (sockets st)) as Hs1.
  { subst s1. cbn. rewrite length_insert, Hsockets.
    split_and!; try done. destruct (socket st); by rewrite ?length_alter. }
  clearbody s1. clear Ht Hhb Hrt Hatt Hsockets.
  assert (timers (run (onclose options true) s1) = [] /\
          reconnectAttempts (run (onclose options true) s1) = 0 /\
          length (sockets (run (onclose options true) s1))
          = length (sockets st)) as Hgoal.
  { destruct s1 as [sock cd cg lm ra er hb rt sto tok' socks tms nt lg li].
    cbn in Hs1. destruct Hs1 as (-> & -> & -> & <-).
    unfold_handlers. by destruct (onClose options) as [[]|]. }
  by destruct r; intros [= <-].
Qed.

End WithOptions.

End TimerFacts.

(** ** One timer per purpose, and what each handler does to the
    connection *)

Module TidyFacts.
Import Ws Conn ConnFacts TimerFacts Timers.

Lemma intervals_drop_le h l :
  pending_intervals (drop_timer h l) <= pending_intervals l.
Proof.
  unfold drop_timer. induction l as [|[h' t] l IH]; [done|].
  rewrite filter_cons. cbn. destruct (decide (h' <> h)); destruct t; cbn; lia.
Qed.

Lemma intervals_app_timeout l h d :
  pending_intervals (l ++ [(h, Timeout d)]) = pending_intervals l.
Proof. induction l as [|[h' []] l IH]; cbn; by rewrite ?IH. Qed.

Lemma intervals_app_interval l h ms :
  pending_intervals (l ++ [(h, Interval ms)]) = S (pending_intervals l).
Proof. induction l as [|[h' []] l IH]; cbn; by rewrite ?IH. Qed.

Lemma tracked_no_timeout hb l :
  tracked_as hb None l -> pending_timeouts l = 0.
Proof.
  induction l as [|[h t] l IH]; intros Htr; [done|].
  pose proof (Htr h t ltac:(left)) as Hhead. destruct t; [done|]. cbn.
  apply IH. intros h' t' Hin. apply Htr. by right.
Qed.

Lemma tracked_no_interval rt l :
  tracked_as None rt l -> pending_intervals l = 0.
Proof.
  induction l as [|[h t] l IH]; intros Htr; [done|].
  pose proof (Htr h t ltac:(left)) as Hhead. destruct t; [|done]. cbn.
  apply IH. intros h' t' Hin. apply Htr. by right.
Qed.

Lemma tidy_drop h hb rt l : tidy_as hb rt l -> tidy_as hb rt (drop_timer h l).
Proof.
  intros (Htr & Ht & Hi). split_and!.
  - by apply tracked_drop.
  - pose proof (pending_drop_le h l). lia.
  - pose proof (intervals_drop_le h l). lia.
Qed.

Lemma tidy_stop h rt l :
  tidy_as (Some h) rt l -> tidy_as None rt (drop_timer h l).
Proof.
  intros (Htr & Ht & Hi). split_and!.
  - by apply tracked_stop.
  - pose proof (pending_drop_le h l). lia.
  - pose proof (intervals_drop_le h l). lia.
Qed.

Lemma tidy_cancel h hb l :
  tidy_as hb (Some h) l -> tidy_as hb None (drop_timer h l).
Proof.
  intros (Htr & Ht & Hi). split_and!.
  - by apply tracked_cancel.
  - pose proof (pending_drop_le h l). lia.
  - pose proof (intervals_drop_le h l). lia.
Qed.

Lemma tidy_add_timeout hb l h d :
  tidy_as hb None l -> tidy_as hb (Some h) (l ++ [(h, Timeout d)]).
Proof.
  intros (Htr & Ht & Hi). split_and!.
  - by apply tracked_add_timeout.
  - rewrite pending_app_timeout, (tracked_no_timeout hb l); [lia|done].
  - by rewrite intervals_app_timeout.
Qed.

Lemma tidy_add_interval rt l h ms :
  tidy_as None rt l -> tidy_as (Some h) rt (l ++ [(h, Interval ms)]).
Proof.
  intros (Htr & Ht & Hi). split_and!.
  - by apply tracked_add_interval.
  - by rewrite pending_app_interval.
  - rewrite intervals_app_interval, (tracked_no_interval rt l); [lia|done].
Qed.

Create HintDb tidy.

#[local] Hint Resolve tidy_drop tidy_stop tidy_cancel tidy_add_timeout
  tidy_add_interval : tidy.

Ltac tidy_goal := unfold tidy; cbn -[drop_timer]; eauto 6 with tidy.

Section WithOptions.

Context (projectId : string) (options : WebSocketOptions) (host : Host).

Lemma connect_timers st :
  heartbeatTimer (run (connect projectId host) st) = heartbeatTimer st
  /\ reconnectTimer (run (connect projectId host) st) = reconnectTimer st
  /\ timers (run (connect projectId host) st) = timers st.
Proof.
  unfold_handlers.
  destruct (no_token (token st)); [cbn; auto|].
  destruct (is_open st); [cbn; auto|].
  destruct (connecting st); [cbn; auto|].
  cbn. destruct (url_accepted host _); cbn; auto.
Qed.

Lemma connect_tidy st : tidy st -> tidy (run (connect projectId host) st).
Proof.
  destruct (connect_timers st) as (Hhb & Hrt & Ht).
  unfold tidy. by rewrite Hhb, Hrt, Ht.
Qed.

Lemma onopen_tidy st : tidy st -> tidy (run (onopen options) st).
Proof.
  destruct st as [sock cd cg lm ra er hb rt sto tok socks tms nt lg li].
  unfold_handlers.
  destruct hb as [hb|], (onOpen options) as [[]|]; cbn -[drop_timer];
    tidy_goal.
Qed.

Lemma onclose_tidy c st : tidy st -> tidy (run (onclose options c) st).
Proof.
  destruct st as [sock cd cg lm ra er hb rt sto tok socks tms nt lg li].
  unfold_handlers.
  destruct hb as [hb|], (onClose options) as [[]|], c, rt as [rt|];
    cbn -[Nat.ltb Nat.leb drop_timer];
    destruct (ra <? MAX_RECONNECT_ATTEMPTS)%nat;
    cbn -[Nat.ltb Nat.leb drop_timer];
    try destruct (MAX_RECONNECT_ATTEMPTS <=? ra)%nat;
    cbn -[Nat.ltb Nat.leb drop_timer]; tidy_goal.
Qed.

Lemma onerror_tidy ws st : tidy st -> tidy (run (onerror options ws) st).
Proof.
  destruct st as [sock cd cg lm ra er hb rt sto tok socks tms nt lg li].
  unfold_handlers. destruct (onError options) as [[]|]; cbn; tidy_goal.
Qed.

Lemma onmessage_tidy data st :
  tidy st -> tidy (run (onmessage options host data) st).
Proof.
  unfold run.
  destruct (JSON_parse host data) as [v|] eqn:Hp;
    [|by rewrite DispatchFacts.onmessage_malformed].
  destruct (Dispatch.nullish v) eqn:Hv;
    [by erewrite DispatchFacts.onmessage_nullish|].
  destruct (Js.strict_eq (read_opt v "type") (Js.Str "pong")) eqn:Hpong;
    [by erewrite DispatchFacts.onmessage_pong|].
  destruct (Dispatch.callback_returns options v) eqn:Hcb.
  - erewrite DispatchFacts.onmessage_handled by done. unfold Dispatch.notified.
    by destruct (onMessage options).
  - by erewrite DispatchFacts.onmessage_callback_throws.
Qed.

Lemma disconnect_tidy st : tidy st -> tidy (run disconnect st).
Proof.
  intros (Htr & _). destruct (disconnect_clears st Htr) as (Ht & Hhb & Hrt).
  unfold tidy. rewrite Ht, Hhb, Hrt. split_and!; cbn; try lia.
  by intros h t Hin%elem_of_nil.
Qed.

Lemma step_tidy ev st st' :
  step projectId options host ev st = Some st' -> tidy st -> tidy st'.
Proof.
  destruct ev; unfold step.
  - intros [= <-]. unfold onMounted, when.
    destruct (autoConnect options); [apply connect_tidy | done].
  - intros [= <-] H. by apply (disconnect_tidy (set_listening false st)).
  - intros [= <-]. apply connect_tidy.
  - intros [= <-]. apply disconnect_tidy.
  - intros [= <-].
    by destruct (send_cases data st) as [-> | (ws & payload & ->)].
  - by intros [= <-].
  - destruct (listening st); [|by intros [= <-]].
    intros [= <-]. rewrite onvisibilitychange_spec.
    destruct (_ && _); [|done]. intros H. by apply connect_tidy.
  - destruct (timer_kind h st) as [[]|]; try done. intros [= <-] H.
    apply connect_tidy. revert H. tidy_goal.
  - destruct (timer_kind h st) as [[]|]; try done. intros [= <-].
    by destruct (heartbeat_cases st) as [-> | [ws ->]].
  - destruct (sockets st !! ws) as [[]|]; try done. intros [= <-] H.
    by apply onopen_tidy.
  - destruct (sockets st !! ws) as [[]|]; try done. intros [= <-].
    apply onmessage_tidy.
  - destruct (sockets st !! ws); try done. intros [= <-].
    apply onerror_tidy.
  - destruct (sockets st !! ws) as [[]|]; try done; intros [= <-] H;
      by apply onclose_tidy.
  - by intros [= <-].
Qed.

Lemma steps_tidy evs st st' :
  steps projectId options host evs st = Some st' -> tidy st -> tidy st'.
Proof.
  revert st. induction evs as [|ev evs IH]; intros st; cbn.
  - by intros [= <-].
  - destruct (step projectId options host ev st) as [s1|] eqn:Hstep; [|done].
    intros Hrest Hst. apply (IH s1 Hrest). by eapply step_tidy.
Qed.

Lemma initial_tidy tok s : tidy (initial tok s).
Proof.
  split_and!; cbn; try lia. by intros h t Hin%elem_of_nil.
Qed.

(** X1: whatever has happened since the composable was created, at most one
    heartbeat interval and at most one reconnect timeout are pending, and
    they are the ones [heartbeatTimer] and [reconnectTimer] hold. *)
Theorem one_timer_per_purpose tok s evs st :
  steps projectId options host evs (initial tok s) = Some st ->
  pending_intervals (timers st) <= 1
  /\ pending_timeouts (timers st) <= 1
  /\ (forall h ms, (h, Interval ms) ∈ timers st -> heartbeatTimer st = Some h)
  /\ (forall h d, (h, Timeout d) ∈ timers st -> reconnectTimer st = Some h).
Proof.
  intros Hrun.
  destruct (steps_tidy _ _ _ Hrun (initial_tidy tok s)) as (Htr & Ht & Hi).
  split_and!; [done..| |].
  - intros h ms Hin. apply (Htr h _ Hin).
  - intros h d Hin. apply (Htr h _ Hin).
Qed.

(** [ws.onclose], on the timer variables. *)
Lemma onclose_heartbeat c st :
  heartbeatTimer (run (onclose options c) st) = None.
Proof.
  destruct st as [sock cd cg lm ra er hb rt sto tok socks tms nt lg li].
  unfold_handlers.
  destruct hb as [hb|], (onClose options) as [[]|], c, rt as [rt|];
    cbn -[Nat.ltb Nat.leb drop_timer];
    destruct (ra <? MAX_RECONNECT_ATTEMPTS)%nat;
    cbn -[Nat.ltb Nat.leb drop_timer];
    try destruct (MAX_RECONNECT_ATTEMPTS <=? ra)%nat;
    cbn -[Nat.ltb Nat.leb drop_timer]; done.
Qed.

(** X2: every close event, clean or not, of the current socket or of an older
    one, stops the heartbeat: no interval is left pending. *)
Theorem close_stops_heartbeat tok s evs st ws wasClean st' :
  steps projectId options host evs (initial tok s) = Some st ->
  step projectId options host (SocketClose ws wasClean) st = Some st' ->
  pending_intervals (timers st') = 0
  /\ heartbeatTimer st' = None
  /\ connected st' = false /\ connecting st' = false.
Proof.
  intros Hrun Hstep.
  pose proof (steps_tidy _ _ _ Hrun (initial_tidy tok s)) as Htidy.
  pose proof (step_tidy _ _ _ Hstep Htidy) as (Htr & _).
  assert (heartbeatTimer st' = None /\ connected st' = false
          /\ connecting st' = false) as (Hhb & Hcd & Hcg).
  { revert Hstep. unfold step.
    destruct (sockets st !! ws) as [[]|]; try done; intros [= <-];
      (split; [apply onclose_heartbeat|]);
      by destruct (onclose_effect options wasClean
                     (set_sockets (<[ws:=CLOSED]> (sockets st)) st))
        as (_ & _ & ? & ? & _). }
  split_and!; try done.
  unfold tracked in Htr. rewrite Hhb in Htr. by eapply tracked_no_interval.
Qed.

(** [ws.onopen], on the timers. *)
Lemma onopen_timers st :
  timers (run (onopen options) st)
  = match heartbeatTimer st with
    | Some h => drop_timer h (timers st)
    | None => timers st
    end ++ [(next_timer st, Interval HEARTBEAT_INTERVAL)]
  /\ heartbeatTimer (run (onopen options) st) = Some (next_timer st)
  /\ error (run (onopen options) st) = None.
Proof.
  destruct st as [sock cd cg lm ra er hb rt sto tok socks tms nt lg li].
  unfold_handlers.
  destruct hb as [hb|], (onOpen options) as [[]|]; cbn -[drop_timer]; done.
Qed.

(** X3: an open event leaves exactly one heartbeat pending, at 30000 ms, the
    one [heartbeatTimer] holds, with [connected] set and the error cleared. *)
Theorem open_starts_one_heartbeat tok s evs st ws st' :
  steps projectId options host evs (initial tok s) = Some st ->
  step projectId options host (SocketOpen ws) st = Some st' ->
  pending_intervals (timers st') = 1
  /\ (exists h, heartbeatTimer st' = Some h
               /\ (h, Interval 30000) ∈ timers st')
  /\ connected st' = true /\ connecting st' = false /\ error st' = None.
Proof.
  intros Hrun Hstep.
  pose proof (steps_tidy _ _ _ Hrun (initial_tidy tok s)) as Htidy.
  pose proof (step_tidy _ _ _ Hstep Htidy) as (_ & _ & Hle).
  revert Hstep Hle. unfold step.
  destruct (sockets st !! ws) as [[]|]; try done. intros [= <-].
  set (s1 := set_sockets _ st).
  destruct (onopen_timers s1) as (Ht & Hhb & Herr).
  destruct (onopen_effect options s1) as (_ & Hcd & Hcg & _).
  rewrite Ht, Hhb, Herr. intros Hle. rewrite intervals_app_interval in Hle |- *.
  split_and!; try done; [lia|].
  eexists. split; [done|]. apply elem_of_app. right. by left.
Qed.

(** X4: an abnormal close below the ceiling schedules the retry after
    [1000 * 2^attempts] ms, held by [reconnectTimer], and counts one more
    attempt; with five attempts at most the delay never reaches the cap. *)
Theorem abnormal_close_schedules_backoff st ws st' :
  step projectId options host (SocketClose ws false) st = Some st' ->
  onClose options <> Some Throws ->
  reconnectAttempts st < MAX_RECONNECT_ATTEMPTS ->
  (exists h,
      reconnectTimer st' = Some h
      /\ (h, Timeout (Backoff.Fin (1000 * 2 ^ Z.of_nat (reconnectAttempts st))))
         ∈ timers st')
  /\ reconnectAttempts st' = S (reconnectAttempts st)
  /\ (1000 * 2 ^ Z.of_nat (reconnectAttempts st) <= 16000)%Z.
Proof.
  intros Hstep Hcb Hlt.
  assert (1000 * 2 ^ Z.of_nat (reconnectAttempts st) <= 16000)%Z as Hbound.
  { assert (2 ^ Z.of_nat (reconnectAttempts st) <= 2 ^ 4)%Z
      by (apply Z.pow_le_mono_r; unfold MAX_RECONNECT_ATTEMPTS in Hlt; lia).
    change (2 ^ 4)%Z with 16%Z in *. lia. }
  assert (Backoff.getReconnectDelay (reconnectAttempts st)
          = Backoff.Fin (1000 * 2 ^ Z.of_nat (reconnectAttempts st))) as Hdelay.
  { rewrite BackoffFacts.delay_closed_form. f_equal.
    unfold Backoff.BASE_RECONNECT_DELAY, Backoff.MAX_RECONNECT_DELAY. lia. }
  revert Hstep. unfold step.
  destruct (sockets st !! ws) as [r|]; [|done].
  assert (Some (run (onclose options false)
                  (set_sockets (<[ws:=CLOSED]> (sockets st)) st)) = Some st' ->
          (exists h,
              reconnectTimer st' = Some h
              /\ (h, Timeout (Backoff.Fin
                                (1000 * 2 ^ Z.of_nat (reconnectAttempts st))))
                 ∈ timers st')
          /\ reconnectAttempts st' = S (reconnectAttempts st)
          /\ (1000 * 2 ^ Z.of_nat (reconnectAttempts st) <= 16000)%Z) as Hgo;
    [|by destruct r].
  intros [= <-].
  destruct (onclose_schedules options
              (set_sockets (<[ws:=CLOSED]> (sockets st)) st)
              Hcb Hlt) as (Hrt & Hin & Hatt).
  cbn [reconnectAttempts set_sockets] in Hin, Hatt. rewrite Hdelay in Hin.
  split_and!; [|done..]. eexists. split; [exact Hrt | exact Hin].
Qed.

(** X5: a socket is only ever created by a call of [connect()]: on mount,
    through the exported [connect], when the page becomes visible, or when
    a reconnect timer fires; each creates one at most.  No message, heartbeat,
    error, close, send or disconnect creates one. *)
Theorem only_connect_creates_sockets ev st st' :
  step projectId options host ev st = Some st' ->
  length (sockets st') = length (sockets st)
  \/ (length (sockets st') = S (length (sockets st))
      /\ (ev = Mounted \/ ev = CallConnect \/ ev = VisibilityChange true
          \/ exists h, ev = TimeoutFires h)).
Proof.
  assert (forall s, length (sockets (run (connect projectId host) s))
                    = length (sockets s)
                    \/ length (sockets (run (connect projectId host) s))
                       = S (length (sockets s))) as Hconnect.
  { intros s0. destruct (connect_effect projectId host s0)
      as (_ & _ & _ & _ & [-> | ->]); [by left|].
    right. rewrite length_app. cbn. lia. }
  destruct ev; unfold step.
  - intros [= <-]. unfold onMounted, when.
    destruct (autoConnect options); [|by left].
    destruct (Hconnect st); [by left | right; eauto].
  - intros [= <-]. left. unfold onUnmounted.
    destruct (disconnect_spec (set_listening false st)) as (_ & _ & ->).
    cbn [socket sockets set_listening].
    destruct (socket st); by rewrite ?length_alter.
  - intros [= <-]. destruct (Hconnect st); [by left | right; eauto].
  - intros [= <-]. left.
    destruct (disconnect_spec st) as (_ & _ & ->).
    destruct (socket st); by rewrite ?length_alter.
  - intros [= <-]. left.
    by destruct (send_effect data st) as (_ & _ & -> & _).
  - intros [= <-]. by left.
  - destruct (listening st); [|intros [= <-]; by left].
    intros [= <-]. rewrite onvisibilitychange_spec.
    destruct visible; [|by left]. cbn [andb].
    destruct (_ && _); [|by left].
    destruct (Hconnect (set_error None (set_reconnectAttempts 0 st)));
      [by left | right; eauto].
  - destruct (timer_kind h st) as [[]|]; try done. intros [= <-].
    destruct (Hconnect (set_timers (drop_timer h (timers st)) st));
      [by left | right; eauto 10].
  - destruct (timer_kind h st) as [[]|]; try done. intros [= <-]. left.
    by destruct (heartbeat_effect st) as (_ & _ & _ & ->).
  - destruct (sockets st !! ws) as [[]|]; try done. intros [= <-]. left.
    destruct (onopen_effect options
                (set_sockets (<[ws:=OPEN]> (sockets st)) st))
      as (_ & _ & _ & -> & _).
    cbn. by rewrite length_insert.
  - destruct (sockets st !! ws) as [[]|]; try done. intros [= <-]. left.
    by destruct (onmessage_frame options host data st) as (_ & _ & -> & _).
  - destruct (sockets st !! ws); try done. intros [= <-]. left.
    destruct (onerror_effect options ws st) as (_ & _ & _ & [-> | ->]);
      by rewrite ?length_alter.
  - destruct (sockets st !! ws) as [r|]; [|done].
    assert (length (sockets (run (onclose options wasClean)
                      (set_sockets (<[ws:=CLOSED]> (sockets st)) st)))
            = length (sockets st)) as Hlen.
    { destruct (onclose_effect options wasClean
                  (set_sockets (<[ws:=CLOSED]> (sockets st)) st)) as (-> & _).
      cbn. by rewrite length_insert. }
    destruct r; try done; intros [= <-]; by left.
  - intros [= <-]. by left.
Qed.

(** X6: [disconnect()] clears the reconnect timer, then the heartbeat, and
    only then closes the socket, with code 1000 and reason "Client
    disconnect"; each step is skipped when there is nothing to clear or
    close. *)
Theorem disconnect_cancels_then_closes st :
  log (run disconnect st)
  = match socket st with
    | Some ws => [WsClose ws (Some (1000%Z, "Client disconnect"))]
    | None => []
    end
    ++ match heartbeatTimer st with Some h => [ClearInterval h] | None => [] end
    ++ match reconnectTimer st with Some h => [ClearTimeout h] | None => [] end
    ++ log st.
Proof. by destruct (disconnect_spec st) as (-> & _). Qed.

Lemma state_eta (s : State) :
  s = mkState (socket s) (connected s) (connecting s) (lastMessage s)
        (reconnectAttempts s) (error s) (heartbeatTimer s) (reconnectTimer s)
        (store s) (token s) (sockets s) (timers s) (next_timer s) (log s)
        (listening s).
Proof. by destruct s. Qed.

(** [disconnect()], in one piece. *)
Lemma disconnect_closed_form st :
  run disconnect st
  = mkState None false false (lastMessage st) 0 (error st) None None (store st)
      (token st) (sockets (run disconnect st)) (timers (run disconnect st))
      (next_timer st) (log (run disconnect st)) (listening st).
Proof.
  destruct st as [sock cd cg lm ra er hb rt sto tok socks tms nt lg li].
  unfold_handlers. destruct hb, rt, sock; cbn; done.
Qed.

(** X7: [disconnect()] is idempotent: a second call changes nothing and
    makes no call at all. *)
Theorem disconnect_idempotent st :
  run disconnect (run disconnect st) = run disconnect st
  /\ (disconnect (run disconnect st)).2 = inr tt.
Proof.
  split; [|by destruct (disconnect_effect (run disconnect st))].
  destruct (disconnect_effect st)
    as (_ & Hatt & Hsock & Hcd & Hcg & Hhb & Hrt & _).
  set (s1 := run disconnect st) in *. clearbody s1.
  rewrite (disconnect_closed_form s1).
  destruct (disconnect_spec s1) as (Hl & Ht & Hs).
  rewrite Hl, Ht, Hs, Hsock, Hhb, Hrt. cbn [app id].
  symmetry. etransitivity; [apply state_eta|].
  by rewrite Hatt, Hsock, Hcd, Hcg, Hhb, Hrt.
Qed.

(** [connect()] when it creates a socket, in one piece. *)
Lemma connect_created st :
  no_token (token st) = false -> is_open st = false ->
  connecting st = false ->
  url_accepted host (websocket_url projectId host (token st)) = true ->
  connect projectId host st
  = (set_socket (Some (length (sockets st)))
       (emit (NewWebSocket (length (sockets st))
                (websocket_url projectId host (token st)))
          (set_sockets (sockets st ++ [CONNECTING])
             (set_error None (set_connecting true st)))), inr tt).
Proof.
  intros Htok Hopen Hcg Hurl. unfold_handlers.
  rewrite Htok, Hopen, Hcg. cbn. rewrite Hurl. cbn. done.
Qed.

(** [connect()] when the constructor throws, in one piece. *)
Lemma connect_rejected st :
  no_token (token st) = false -> is_open st = false ->
  connecting st = false ->
  url_accepted host (websocket_url projectId host (token st)) = false ->
  connect projectId host st
  = (emit (ConsoleError "[WebSocket] Connection failed:")
       (set_error (Some "连接失败")
          (set_connecting false (set_error None (set_connecting true st)))),
     inr tt).
Proof.
  intros Htok Hopen Hcg Hurl. unfold_handlers.
  rewrite Htok, Hopen, Hcg. cbn. rewrite Hurl. cbn. done.
Qed.

Lemma connect_noop st :
  no_token (token st) = false -> is_open st || connecting st = true ->
  connect projectId host st = (st, inr tt).
Proof.
  intros Htok Hbusy. unfold_handlers. rewrite Htok.
  destruct (is_open st); [done|]. cbn in Hbusy. by rewrite Hbusy.
Qed.

(** X8: when [new WebSocket(url)] throws, [connect()] still returns normally:
    the attempt is over ([connecting] is false again), the error is set, the
    failure is logged, and no socket exists. *)
Theorem connect_survives_constructor_failure st :
  no_token (token st) = false -> is_open st = false ->
  connecting st = false ->
  url_accepted host (websocket_url projectId host (token st)) = false ->
  (connect projectId host st).2 = inr tt
  /\ connecting (run (connect projectId host) st) = false
  /\ error (run (connect projectId host) st) = Some "连接失败"
  /\ sockets (run (connect projectId host) st) = sockets st
  /\ socket (run (connect projectId host) st) = socket st
  /\ log (run (connect projectId host) st)
     = ConsoleError "[WebSocket] Connection failed:" :: log st.
Proof.
  intros Htok Hopen Hcg Hurl. unfold run.
  by rewrite (connect_rejected st Htok Hopen Hcg Hurl).
Qed.

(** X9: [connect()] is idempotent: called twice in a row it creates at most
    one socket, and the second call changes nothing but, when the
    constructor throws, one more line on the console. *)
Theorem connect_idempotent st :
  let s1 := run (connect projectId host) st in
  let s2 := run (connect projectId host) s1 in
  sockets s2 = sockets s1 /\ socket s2 = socket s1
  /\ connected s2 = connected s1 /\ connecting s2 = connecting s1
  /\ error s2 = error s1 /\ timers s2 = timers s1
  /\ reconnectAttempts s2 = reconnectAttempts s1 /\ store s2 = store s1
  /\ (url_accepted host (websocket_url projectId host (token st)) = true ->
      s2 = s1).
Proof.
  cbv zeta. unfold run.
  assert (forall s, no_token (token s) = true ->
            connect projectId host s = (set_error (Some "未登录") s, inr tt))
    as Hnone by (intros s0 H0; unfold_handlers; by rewrite H0).
  destruct (no_token (token st)) eqn:Htok.
  { rewrite (Hnone st Htok). cbn [fst]. rewrite Hnone by done. cbn [fst].
    by split_and!. }
  destruct (is_open st || connecting st) eqn:Hbusy.
  { rewrite (connect_noop st Htok Hbusy). cbn [fst].
    rewrite (connect_noop st Htok Hbusy). cbn [fst]. by split_and!. }
  apply orb_false_elim in Hbusy as [Hopen Hcg].
  destruct (url_accepted host (websocket_url projectId host (token st)))
    eqn:Hurl.
  - rewrite (connect_created st Htok Hopen Hcg Hurl). cbn [fst].
    rewrite connect_noop; [by split_and! | done |]. cbn. apply orb_true_r.
  - rewrite (connect_rejected st Htok Hopen Hcg Hurl). cbn [fst].
    rewrite connect_rejected; [cbn; by split_and! |done..].
Qed.

(** X10: [send(data)] does nothing and returns [false] unless the current
    socket is open.  On an open socket it serialises the data: the text is
    handed to that socket and [true] is returned; when [JSON.stringify]
    throws, the exception leaves [send] and nothing is sent.  After
    [disconnect()] it returns [false], whatever the data. *)
Theorem send_only_when_open data st :
  (is_open st = false -> send data st = (st, inr false))
  /\ (is_open st = true ->
      exists ws,
        socket st = Some ws /\ sockets st !! ws = Some OPEN
        /\ send data st
           = match data with
             | Some text => (emit (WsSend ws text) st, inr true)
             | None => (st, inl Js.TypeError)
             end)
  /\ send data (run disconnect st) = (run disconnect st, inr false).
Proof.
  assert (forall s,
            (is_open s = false -> send data s = (s, inr false))
            /\ (is_open s = true ->
                exists ws,
                  socket s = Some ws /\ sockets s !! ws = Some OPEN
                  /\ send data s
                     = match data with
                       | Some text => (emit (WsSend ws text) s, inr true)
                       | None => (s, inl Js.TypeError)
                       end))
    as Hsend.
  { intros s0. unfold send, JSON_stringify, is_open, socket_readyState.
    cbv [mbind M_bind bind get modify ret mret M_ret option_bind throw].
    destruct (socket s0) as [ws|]; cbn; [|by split].
    destruct (sockets s0 !! ws) as [[]|] eqn:Hws; cbn; split; try done.
    intros _. exists ws. by destruct data. }
  destruct (Hsend st) as (H1 & H2).
  assert (is_open (run disconnect st) = false) as Hclosed.
  { unfold is_open, socket_readyState.
    by destruct (disconnect_effect st) as (_ & _ & -> & _). }
  destruct (Hsend (run disconnect st)) as (H3 & _).
  split_and!; auto.
Qed.

(** X11: a heartbeat tick sends one ping on the current socket when it is open
    and does nothing otherwise.  It changes nothing else: the composable does
    not wait for the pong, so a missing answer is never noticed here. *)
Theorem heartbeat_only_pings h st st' :
  step projectId options host (IntervalFires h) st = Some st' ->
  (is_open st = true ->
   exists ws, socket st = Some ws /\ sockets st !! ws = Some OPEN
              /\ st' = emit (WsSend ws ping) st)
  /\ (is_open st = false -> st' = st).
Proof.
  unfold step. destruct (timer_kind h st) as [[]|]; try done.
  intros [= <-]. unfold run, heartbeat, when, is_open, socket_readyState.
  cbv [mbind M_bind bind get modify ret option_bind].
  destruct (socket st) as [ws|]; cbn; [|done].
  destruct (sockets st !! ws) as [[]|] eqn:Hws; cbn; split; try done.
  intros _. by exists ws.
Qed.

(** [connect()] leaves the timer variables alone, and the sockets too when
    the current one is open. *)
Lemma connect_frame st :
  reconnectTimer (run (connect projectId host) st) = reconnectTimer st
  /\ (is_open st = true ->
      sockets (run (connect projectId host) st) = sockets st
      /\ socket (run (connect projectId host) st) = socket st).
Proof.
  unfold_handlers.
  destruct (no_token (token st)); [by cbn|].
  destruct (is_open st); [by cbn|].
  destruct (connecting st); [by cbn|].
  cbn. destruct (url_accepted host _); by cbn.
Qed.

(** X12: while the listener is registered, when the page becomes visible
    with [connected] and [connecting] both false, the attempt counter is
    reset and [connect()] runs at once, whatever the counter had reached;
    the timers are left as they are.  That [connect()] opens a new socket
    when a token is present, the current socket is not open and the URL is
    accepted, and none when the current socket is open.  A page that becomes
    hidden, or is connected or connecting, or whose component has been
    unmounted, is left as it is. *)
Theorem visible_page_reconnects visible st :
  (listening st && visible && negb (connected st) && negb (connecting st)
   = false ->
   step projectId options host (VisibilityChange visible) st = Some st)
  /\ (listening st = true -> visible = true ->
      connected st = false -> connecting st = false ->
      exists st',
        step projectId options host (VisibilityChange visible) st = Some st'
        /\ reconnectAttempts st' = 0
        /\ timers st' = timers st /\ reconnectTimer st' = reconnectTimer st
        /\ (no_token (token st) = false -> is_open st = false ->
            url_accepted host (websocket_url projectId host (token st))
            = true ->
            error st' = None /\ connecting st' = true
            /\ sockets st' = sockets st ++ [CONNECTING]
            /\ socket st' = Some (length (sockets st)))
        /\ (is_open st = true ->
            sockets st' = sockets st /\ socket st' = socket st)).
Proof.
  unfold step. split.
  - destruct (listening st); [|done]. cbn [andb].
    intros Hno. by rewrite onvisibilitychange_spec, Hno.
  - intros -> -> Hcd Hcg. rewrite onvisibilitychange_spec, Hcd, Hcg.
    cbn [andb negb]. eexists. split; [done|].
    set (s0 := set_error None (set_reconnectAttempts 0 st)).
    destruct (connect_effect projectId host s0) as (_ & Hatt & Ht & _).
    destruct (connect_frame s0) as (Hrt & Hopen).
    split_and!; [by rewrite Hatt | by rewrite Ht | by rewrite Hrt | |].
    + intros Htok Hnot Hurl. unfold run.
      rewrite (connect_created s0);
        [by cbn | exact Htok | exact Hnot | exact Hcg | exact Hurl].
    + intros Hyes. by destruct (Hopen Hyes) as (-> & ->).
Qed.

(** X13: an error event records the error and closes the socket it came from,
    which need not be the current one; it schedules nothing and leaves
    [connected] and the attempt counter alone, the close event does the
    rest.  When the [onError] callback throws, the socket is not closed. *)
Theorem error_closes_its_socket ws st :
  let st' := run (onerror options ws) st in
  error st' = Some "连接错误"
  /\ reconnectAttempts st' = reconnectAttempts st
  /\ timers st' = timers st /\ reconnectTimer st' = reconnectTimer st
  /\ socket st' = socket st /\ connected st' = connected st
  /\ match onError options with
     | Some Throws =>
         (onerror options ws st).2 = inl Js.CallbackError
         /\ sockets st' = sockets st
     | _ =>
         (onerror options ws st).2 = inr tt
         /\ sockets st' = alter start_closing ws (sockets st)
         /\ head (log st') = Some (WsClose ws None)
     end.
Proof.
  destruct st as [sock cd cg lm ra er hb rt sto tok socks tms nt lg li].
  unfold_handlers.
  destruct (onError options) as [[]|]; cbn; by split_and!.
Qed.

End WithOptions.

Lemma one_timer_per_purpose_witness :
  Sample.go [Mounted; SocketOpen 0; SocketClose 0 false] Sample.start
  = Some Scenario.lost
  /\ pending_intervals (timers Scenario.lost) <= 1
  /\ pending_timeouts (timers Scenario.lost) <= 1
  /\ reconnectTimer Scenario.lost = Some 2%positive.
Proof.
  split; [vm_compute; reflexivity|].
  destruct (one_timer_per_purpose "p1" default_options Sample.host
              (Some "token") Sample.store0
              [Mounted; SocketOpen 0; SocketClose 0 false] Scenario.lost
              eq_refl) as (Hi & Ht & _ & Hrt).
  split_and!; [exact Hi | exact Ht |].
  apply (Hrt 2%positive (Backoff.Fin 1000)). vm_compute. left.
Defined.

Lemma close_stops_heartbeat_witness :
  Sample.go [Mounted; SocketOpen 0] Sample.start = Some Scenario.opened
  /\ Sample.go [SocketClose 0 false] Scenario.opened = Some Scenario.lost
  /\ pending_intervals (timers Scenario.lost) = 0
  /\ heartbeatTimer Scenario.lost = None
  /\ connected Scenario.lost = false.
Proof.
  split; [vm_compute; reflexivity|]. split; [vm_compute; reflexivity|].
  destruct (close_stops_heartbeat "p1" default_options Sample.host
              (Some "token") Sample.store0 [Mounted; SocketOpen 0]
              Scenario.opened 0 false Scenario.lost eq_refl eq_refl)
    as (Hi & Hhb & Hcd & _).
  split_and!; [exact Hi | exact Hhb | exact Hcd].
Defined.

Lemma open_starts_one_heartbeat_witness :
  Sample.go [Mounted] Sample.start = Some Sample.mounted
  /\ Sample.go [SocketOpen 0] Sample.mounted = Some Scenario.opened
  /\ pending_intervals (timers Scenario.opened) = 1
  /\ connected Scenario.opened = true.
Proof.
  split; [vm_compute; reflexivity|]. split; [vm_compute; reflexivity|].
  destruct (open_starts_one_heartbeat "p1" default_options Sample.host
              (Some "token") Sample.store0 [Mounted]
              Sample.mounted 0 Scenario.opened eq_refl eq_refl)
    as (Hi & _ & Hcd & _).
  split_and!; [exact Hi | exact Hcd].
Defined.

Lemma abnormal_close_schedules_backoff_witness :
  Sample.go [SocketClose 0 false] Scenario.opened = Some Scenario.lost
  /\ reconnectAttempts Scenario.opened < MAX_RECONNECT_ATTEMPTS
  /\ reconnectAttempts Scenario.lost = 1.
Proof.
  split; [vm_compute; reflexivity|]. split; [vm_compute; lia|].
  refine (proj1 (proj2 (abnormal_close_schedules_backoff "p1" default_options
                   Sample.host Scenario.opened 0 Scenario.lost eq_refl _ _))).
  - discriminate.
  - vm_compute. lia.
Defined.

Lemma only_connect_creates_sockets_witness :
  Sample.go [CallConnect] Sample.start = Some Sample.mounted
  /\ length (sockets Sample.mounted) = S (length (sockets Sample.start)).
Proof.
  split; [vm_compute; reflexivity|].
  destruct (only_connect_creates_sockets "p1" default_options Sample.host
              CallConnect Sample.start Sample.mounted eq_refl)
    as [Hsame | [Hone _]]; [discriminate Hsame | exact Hone].
Defined.

Lemma connect_survives_constructor_failure_witness :
  no_token (token Sample.start) = false
  /\ is_open Sample.start = false
  /\ connecting Sample.start = false
  /\ url_accepted Scenario.refusing
       (websocket_url "p1" Scenario.refusing (token Sample.start)) = false
  /\ connecting (run (connect "p1" Scenario.refusing) Sample.start) = false
  /\ error (run (connect "p1" Scenario.refusing) Sample.start)
     = Some "连接失败"
  /\ sockets (run (connect "p1" Scenario.refusing) Sample.start) = [].
Proof.
  destruct (connect_survives_constructor_failure "p1" Scenario.refusing
              Sample.start eq_refl eq_refl eq_refl eq_refl)
    as (_ & Hcg & Herr & Hsockets & _).
  split_and!; [reflexivity.. | exact Hcg | exact Herr | exact Hsockets].
Defined.

Lemma heartbeat_only_pings_witness :
  Sample.go [IntervalFires 1] Scenario.opened
  = Some (emit (WsSend 0 ping) Scenario.opened)
  /\ is_open Scenario.opened = true
  /\ exists ws, socket Scenario.opened = Some ws
               /\ sockets Scenario.opened !! ws = Some OPEN.
Proof.
  split; [vm_compute; reflexivity|]. split; [reflexivity|].
  destruct (proj1 (heartbeat_only_pings "p1" default_options Sample.host 1
                     Scenario.opened (emit (WsSend 0 ping) Scenario.opened)
                     eq_refl) eq_refl) as (ws & Hs & Hopen & _).
  exists ws. split; [exact Hs | exact Hopen].
Defined.

Lemma visible_page_reconnects_witness :
  reconnectAttempts Sample.gave_up = 5
  /\ connected Sample.gave_up = false /\ connecting Sample.gave_up = false
  /\ listening Sample.gave_up = true
  /\ exists st',
       Sample.go [VisibilityChange true] Sample.gave_up = Some st'
       /\ reconnectAttempts st' = 0
       /\ connecting st' = true
       /\ length (sockets st') = S (length (sockets Sample.gave_up)).
Proof.
  destruct (proj2 (visible_page_reconnects "p1" default_options Sample.host
                     true Sample.gave_up)
              eq_refl eq_refl eq_refl eq_refl)
    as (st' & Hstep & Hatt & _ & _ & Hnew & _).
  destruct (Hnew eq_refl eq_refl eq_refl) as (_ & Hcg & Hsockets & _).
  split_and!; [reflexivity..|].
  exists st'. split_and!; [| exact Hatt | exact Hcg |].
  - unfold Sample.go. cbn [steps]. by rewrite Hstep.
  - rewrite Hsockets, length_app. cbn. lia.
Defined.

End TidyFacts.

(** ** What a message does to the tasks and the scenes *)

Module RoutingFacts.
Import Ws Dispatch StoreFacts DispatchFacts Routing.

Lemma updateScene_ids id upd s :
  upd !! "id" = None ->
  ids (Store.scenes (Store.updateScene id upd s)) = ids (Store.scenes s).
Proof.
  intros Hupd. unfold Store.updateScene.
  destruct (Store.findIndex id (Store.scenes s)) as [i|]; [|done]. cbn.
  unfold ids. apply list_eq. intros j. rewrite !list_lookup_fmap.
  destruct (decide (i = j)) as [<-|Hne].
  - rewrite list_lookup_alter_eq. destruct (Store.scenes s !! i); [|done].
    cbn. by rewrite spread_keeps_id.
  - by rewrite list_lookup_alter_ne.
Qed.

Lemma route_scene_ids v s :
  ids (Store.scenes (route_scene v s)) = ids (Store.scenes s).
Proof.
  unfold route_scene. cbv zeta.
  repeat match goal with
         | |- context [if ?b then _ else _] => destruct b
         end;
    by rewrite ?updateScene_ids.
Qed.

Lemma route_scene_unrouted v s : routes v = false -> route_scene v s = s.
Proof.
  unfold routes, route_scene. cbv zeta.
  destruct (Js.strict_eq (read_opt v "status") (Js.Str "completed")),
    (Js.truthy (read_opt v "result")),
    (Js.strict_eq (read_opt v "type") (Js.Str "image")),
    (Js.strict_eq (read_opt v "type") (Js.Str "video")),
    (Js.truthy (read_opt (read_opt v "result") "scene_id")),
    (Js.strict_eq (read_opt v "status") (Js.Str "failed")); cbn; done.
Qed.

Lemma route_scene_completed v s kind :
  kind = "image" \/ kind = "video" ->
  Js.strict_eq (read_opt v "status") (Js.Str "completed") = true ->
  Js.truthy (read_opt v "result") = true ->
  Js.strict_eq (read_opt v "type") (Js.Str kind) = true ->
  Js.truthy (read_opt (read_opt v "result") "scene_id") = true ->
  route_scene v s
  = Store.updateScene (read_opt (read_opt v "result") "scene_id")
      (<[kind +:+ "_url" := read_opt (read_opt v "result") (kind +:+ "_url")]>
         (<["status" := Js.Str "completed"]> ∅)) s.
Proof.
  intros Hkind Hc Hr Ht Hs. unfold route_scene. cbv zeta.
  rewrite Hc, Hr, Hs, (strict_eq_exclusive _ "completed" "failed") by done.
  destruct Hkind as [-> | ->]; rewrite Ht; cbn.
  - by rewrite (strict_eq_exclusive _ "image" "video").
  - by rewrite (strict_eq_exclusive _ "video" "image").
Qed.

Lemma route_scene_failed v s :
  Js.strict_eq (read_opt v "status") (Js.Str "failed") = true ->
  Js.truthy (read_opt (read_opt v "result") "scene_id") = true ->
  route_scene v s
  = Store.updateScene (read_opt (read_opt v "result") "scene_id")
      (<["status" := Js.Str "failed"]> ∅) s.
Proof.
  intros Hf Hs. unfold route_scene. cbv zeta.
  by rewrite Hf, Hs, (strict_eq_exclusive _ "failed" "completed").
Qed.

Lemma route_scene_unknown v s :
  Store.findIndex (read_opt (read_opt v "result") "scene_id")
    (Store.scenes s) = None ->
  route_scene v s = s.
Proof.
  intros Hfind. unfold route_scene. cbv zeta.
  repeat match goal with
         | |- context [if ?b then _ else _] => destruct b
         end; by rewrite ?(updateScene_unknown _ _ s Hfind).
Qed.

Lemma status_readable v x :
  Js.strict_eq (read_opt v "status") (Js.Str x) = true -> nullish v = false.
Proof. by destruct v. Qed.

Lemma strict_eq_sym a b : Js.strict_eq a b = Js.strict_eq b a.
Proof.
  destruct a, b; cbn; try done; apply bool_decide_ext; split; congruence.
Qed.

(** [updateTask] keyed by the id it writes keeps the ids distinct. *)
Lemma updateTask_distinct id upd s :
  upd !! "id" = Some id -> Js.primitive id = true ->
  distinct_ids (Store.tasks s) ->
  distinct_ids (Store.tasks (Store.updateTask id upd s)).
Proof.
  intros Hid Hprim Hdist. unfold Store.updateTask.
  destruct (Store.findIndex id (Store.tasks s)) as [i|] eqn:Hfind; cbn.
  - destruct (findIndex_Some _ _ _ Hfind) as (old & Hold & Hmatch & _).
    apply strict_eq_eq in Hmatch.
    assert (forall j x, alter (fun o => Js.spread o upd) i (Store.tasks s) !! j
                        = Some x ->
              exists y, Store.tasks s !! j = Some y
                        /\ Js.prop x "id" = Js.prop y "id") as Hsame.
    { intros j x. destruct (decide (i = j)) as [<-|Hne].
      - rewrite list_lookup_alter_eq, Hold. cbn. intros [= <-].
        exists old. split; [done|]. by rewrite (spread_sets_id _ _ _ Hid).
      - rewrite list_lookup_alter_ne by done. eauto. }
    intros a b x y Ha Hb Hab.
    destruct (Hsame a x Ha) as (x0 & Hx0 & ->).
    destruct (Hsame b y Hb) as (y0 & Hy0 & ->).
    by apply (Hdist a b).
  - pose proof (proj1 (findIndex_None _ _) Hfind) as Hnone.
    assert (Js.prop upd "id" = id) as Hupd by (unfold Js.prop; by rewrite Hid).
    intros a b x y Ha Hb Hab.
    apply lookup_app_Some in Ha as [Ha|[Hla Ha]];
      apply lookup_app_Some in Hb as [Hb|[Hlb Hb]].
    + by apply (Hdist a b).
    + apply list_lookup_singleton_Some in Hb as [_ <-].
      rewrite Hupd. by apply (Hnone a).
    + apply list_lookup_singleton_Some in Ha as [_ <-].
      rewrite Hupd, strict_eq_sym. by apply (Hnone b).
    + apply list_lookup_singleton_Some in Ha as [Ha0 _].
      apply list_lookup_singleton_Some in Hb as [Hb0 _]. lia.
Qed.

Lemma to_value_payload (e : Wire.TaskProgressMessage) :
  read_opt (Wire.to_value e) "progress" = Js.Num (Wire.progress e)
  /\ read_opt (Wire.to_value e) "message" = Js.Str (Wire.message e)
  /\ read_opt (Wire.to_value e) "error"
     = match Wire.error e with Some x => Js.Str x | None => Js.Undefined end.
Proof.
  unfold Wire.to_value, Wire.with_optional, read_opt. cbn.
  destruct (Wire.result e), (Wire.error e); cbn;
    by rewrite ?lookup_insert_eq, ?lookup_insert_ne, ?lookup_insert_eq,
         ?lookup_empty by done.
Qed.

Section WithOptions.

Context (options : WebSocketOptions) (host : Host).

(** The store after [ws.onmessage], whatever the text. *)
Lemma onmessage_store data st :
  store (run (onmessage options host data) st)
  = match JSON_parse host data with
    | Some v =>
        if nullish v || Js.strict_eq (read_opt v "type") (Js.Str "pong")
           || negb (callback_returns options v)
        then store st
        else apply_message v (store st)
    | None => store st
    end.
Proof.
  unfold run.
  destruct (JSON_parse host data) as [v|] eqn:Hp;
    [|by rewrite onmessage_malformed].
  destruct (nullish v) eqn:Hv; [by erewrite onmessage_nullish|].
  destruct (Js.strict_eq (read_opt v "type") (Js.Str "pong")) eqn:Hpong;
    [by erewrite onmessage_pong|].
  destruct (callback_returns options v) eqn:Hcb; cbn.
  - erewrite onmessage_handled by done. cbn. unfold notified.
    by destruct (onMessage options).
  - by erewrite onmessage_callback_throws.
Qed.

(** X14: no message ever adds, removes, reorders or re-identifies a scene:
    whatever text arrives, the scenes keep their ids, in order. *)
Theorem dispatch_keeps_scene_ids data st :
  ids (Store.scenes (store (run (onmessage options host data) st)))
  = ids (Store.scenes (store st))
  /\ length (Store.scenes (store (run (onmessage options host data) st)))
     = length (Store.scenes (store st)).
Proof.
  assert (ids (Store.scenes (store (run (onmessage options host data) st)))
          = ids (Store.scenes (store st))) as Hids.
  { rewrite onmessage_store.
    destruct (JSON_parse host data) as [v|]; [|done].
    destruct (_ || _); [done|]. unfold apply_message.
    by rewrite route_scene_ids, updateTask_scenes. }
  split; [done|]. apply (f_equal length) in Hids. unfold ids in Hids.
  by rewrite !length_fmap in Hids.
Qed.

(** X15: a message that is neither a completed image or video with a scene
    id nor a failure with a scene id leaves every scene as it is: progress
    reports, storyboard and compose results, results without [scene_id]. *)
Theorem unrouted_message_keeps_scenes data v st :
  JSON_parse host data = Some v -> routes v = false ->
  Store.scenes (store (run (onmessage options host data) st))
  = Store.scenes (store st).
Proof.
  intros Hp Hr. rewrite onmessage_store, Hp.
  destruct (_ || _); [done|]. unfold apply_message.
  by rewrite (route_scene_unrouted _ _ Hr), updateTask_scenes.
Qed.

(** X16: a completed image (or video) message whose result names a scene
    the store has puts the result's [image_url] (or [video_url]) into that
    scene and marks it completed; the scene's other fields and every other
    scene stay as they are. *)
Theorem completed_result_reaches_scene data v st kind i old :
  JSON_parse host data = Some v ->
  callback_returns options v = true ->
  kind = "image" \/ kind = "video" ->
  Js.strict_eq (read_opt v "status") (Js.Str "completed") = true ->
  Js.truthy (read_opt v "result") = true ->
  Js.strict_eq (read_opt v "type") (Js.Str kind) = true ->
  Js.truthy (read_opt (read_opt v "result") "scene_id") = true ->
  Store.findIndex (read_opt (read_opt v "result") "scene_id")
    (Store.scenes (store st)) = Some i ->
  Store.scenes (store st) !! i = Some old ->
  let after := Store.scenes (store (run (onmessage options host data) st)) in
  exists r,
    after !! i = Some r
    /\ Js.prop r (kind +:+ "_url")
       = read_opt (read_opt v "result") (kind +:+ "_url")
    /\ Js.prop r "status" = Js.Str "completed"
    /\ (forall k, k <> kind +:+ "_url" -> k <> "status" -> r !! k = old !! k)
    /\ (forall j, j <> i -> after !! j = Store.scenes (store st) !! j).
Proof.
  intros Hp Hcb Hkind Hc Hr Ht Hs Hfind Hold after. subst after.
  rewrite onmessage_store, Hp, (status_readable _ _ Hc), Hcb.
  assert (Js.strict_eq (read_opt v "type") (Js.Str "pong") = false) as ->.
  { destruct Hkind as [-> | ->].
    - by apply (strict_eq_exclusive _ "image" "pong").
    - by apply (strict_eq_exclusive _ "video" "pong"). }
  cbn [orb negb]. unfold apply_message.
  rewrite (route_scene_completed _ _ kind) by done.
  unfold Store.updateScene. rewrite updateTask_scenes, Hfind. cbn.
  eexists. split_and!.
  - by rewrite list_lookup_alter_eq, Hold.
  - unfold Js.prop. by rewrite spread_lookup, lookup_insert_eq.
  - unfold Js.prop. rewrite spread_lookup.
    destruct Hkind as [-> | ->]; by rewrite lookup_insert_ne, lookup_insert_eq.
  - intros k Hk1 Hk2.
    by rewrite spread_lookup, !lookup_insert_ne, lookup_empty.
  - intros j Hj. by rewrite list_lookup_alter_ne.
Qed.

(** X17: a failed message whose result names a scene the store has marks
    that scene failed and keeps everything else of it, its image and video
    URLs included; the other scenes stay as they are. *)
Theorem failure_marks_scene_failed data v st i old :
  JSON_parse host data = Some v ->
  callback_returns options v = true ->
  Js.strict_eq (read_opt v "status") (Js.Str "failed") = true ->
  Js.strict_eq (read_opt v "type") (Js.Str "pong") = false ->
  Js.truthy (read_opt (read_opt v "result") "scene_id") = true ->
  Store.findIndex (read_opt (read_opt v "result") "scene_id")
    (Store.scenes (store st)) = Some i ->
  Store.scenes (store st) !! i = Some old ->
  let after := Store.scenes (store (run (onmessage options host data) st)) in
  exists r,
    after !! i = Some r
    /\ Js.prop r "status" = Js.Str "failed"
    /\ (forall k, k <> "status" -> r !! k = old !! k)
    /\ (forall j, j <> i -> after !! j = Store.scenes (store st) !! j).
Proof.
  intros Hp Hcb Hf Hpong Hs Hfind Hold after. subst after.
  rewrite onmessage_store, Hp, (status_readable _ _ Hf), Hcb, Hpong.
  cbn [orb negb]. unfold apply_message.
  rewrite route_scene_failed by done.
  unfold Store.updateScene. rewrite updateTask_scenes, Hfind. cbn.
  eexists. split_and!.
  - by rewrite list_lookup_alter_eq, Hold.
  - unfold Js.prop. by rewrite spread_lookup, lookup_insert_eq.
  - intros k Hk. by rewrite spread_lookup, lookup_insert_ne, lookup_empty.
  - intros j Hj. by rewrite list_lookup_alter_ne.
Qed.

(** X18: a message whose result names a scene the store does not have
    (removed, or never loaded) raises nothing and changes no scene; and when
    the message is handled (it is not [null], not a pong, and the callback
    returns) the task is recorded all the same and no error is logged. *)
Theorem unknown_scene_does_not_block_task data v st :
  JSON_parse host data = Some v ->
  Store.findIndex (read_opt (read_opt v "result") "scene_id")
    (Store.scenes (store st)) = None ->
  let st' := run (onmessage options host data) st in
  (onmessage options host data st).2 = inr tt
  /\ Store.scenes (store st') = Store.scenes (store st)
  /\ (nullish v = false ->
      Js.strict_eq (read_opt v "type") (Js.Str "pong") = false ->
      callback_returns options v = true ->
      Store.tasks (store st')
      = Store.tasks (Store.updateTask (read_opt v "task_id") (task_record v)
                       (store st))
      /\ log st' = log (notified options st)).
Proof.
  intros Hp Hfind st'. subst st'. split_and!.
  - destruct (nullish v) eqn:Hv; [by erewrite onmessage_nullish|].
    destruct (Js.strict_eq (read_opt v "type") (Js.Str "pong")) eqn:Hpong;
      [by erewrite onmessage_pong|].
    destruct (callback_returns options v) eqn:Hcb.
    + by erewrite onmessage_handled.
    + by erewrite onmessage_callback_throws.
  - rewrite onmessage_store, Hp. destruct (_ || _); [done|].
    unfold apply_message.
    rewrite route_scene_unknown by (by rewrite updateTask_scenes).
    by rewrite updateTask_scenes.
  - intros Hv Hpong Hcb. unfold run.
    rewrite (onmessage_handled _ _ _ _ _ Hp Hv Hpong Hcb). cbn.
    replace (store (notified options (set_lastMessage (Some v) st)))
      with (store st) by (unfold notified; by destruct (onMessage options)).
    unfold apply_message. rewrite route_scene_tasks. split; [done|].
    unfold notified. by destruct (onMessage options).
Qed.

(** X19: a pong is discarded whole: nothing is stored, [lastMessage] keeps
    its value, the callback is not called and nothing is logged, whatever
    else the envelope carries. *)
Theorem pong_is_discarded data v st :
  JSON_parse host data = Some v ->
  Js.strict_eq (read_opt v "type") (Js.Str "pong") = true ->
  onmessage options host data st = (st, inr tt).
Proof.
  intros Hp Hpong. apply (onmessage_pong _ _ _ v); [done| |done].
  by destruct v.
Qed.

(** X20: [lastMessage] holds the last message handed to [handleMessage]:
    any parsed value but [null] and a pong, even when the [onMessage]
    callback throws on it; a malformed text, [null] and a pong leave it as
    it was. *)
Theorem lastMessage_is_last_handled data st :
  lastMessage (run (onmessage options host data) st)
  = match JSON_parse host data with
    | Some v =>
        if nullish v || Js.strict_eq (read_opt v "type") (Js.Str "pong")
        then lastMessage st
        else Some v
    | None => lastMessage st
    end.
Proof.
  unfold run.
  destruct (JSON_parse host data) as [v|] eqn:Hp;
    [|by rewrite onmessage_malformed].
  destruct (nullish v) eqn:Hv; [by erewrite onmessage_nullish|].
  destruct (Js.strict_eq (read_opt v "type") (Js.Str "pong")) eqn:Hpong;
    [by erewrite onmessage_pong|].
  destruct (callback_returns options v) eqn:Hcb; cbn.
  - erewrite onmessage_handled by done. cbn. unfold notified.
    by destruct (onMessage options).
  - by erewrite onmessage_callback_throws.
Qed.

(** The tasks after a well-formed message has been handled. *)
Lemma handled_tasks (e : Wire.TaskProgressMessage) data st :
  JSON_parse host data = Some (Wire.to_value e) ->
  Wire.type e <> "pong" ->
  callback_returns options (Wire.to_value e) = true ->
  Store.tasks (store (run (onmessage options host data) st))
  = Store.tasks (Store.updateTask (Js.Str (Wire.task_id e))
                   (task_record (Wire.to_value e)) (store st)).
Proof.
  intros Hp Hty Hcb. rewrite onmessage_store, Hp, Hcb.
  destruct (to_value_fields e) as (Hid & Htype & _).
  rewrite Htype, to_value_readable. cbn [Js.strict_eq].
  rewrite bool_decide_eq_false_2 by congruence.
  cbn [orb negb]. unfold apply_message. by rewrite route_scene_tasks, Hid.
Qed.

(** X21: after a well-formed message the task found under its id carries the
    message's type, status, progress and text; its [error_message] is the
    message's error, and is [undefined] when the message has none, whatever
    error was recorded before. *)
Theorem last_message_fields_are_recorded (e : Wire.TaskProgressMessage)
    data st :
  JSON_parse host data = Some (Wire.to_value e) ->
  Wire.type e <> "pong" ->
  callback_returns options (Wire.to_value e) = true ->
  exists i r,
    Store.findIndex (Js.Str (Wire.task_id e))
      (Store.tasks (store (run (onmessage options host data) st))) = Some i
    /\ Store.tasks (store (run (onmessage options host data) st)) !! i = Some r
    /\ Js.prop r "id" = Js.Str (Wire.task_id e)
    /\ Js.prop r "type" = Js.Str (Wire.type e)
    /\ Js.prop r "status" = Js.Str (Wire.status e)
    /\ Js.prop r "progress" = Js.Num (Wire.progress e)
    /\ Js.prop r "progress_message" = Js.Str (Wire.message e)
    /\ Js.prop r "error_message"
       = match Wire.error e with Some x => Js.Str x | None => Js.Undefined end.
Proof.
  intros Hp Hty Hcb. rewrite (handled_tasks e data st Hp Hty Hcb).
  destruct (to_value_fields e) as (Hid & Htype & Hstatus).
  destruct (to_value_payload e) as (Hprog & Hmsg & Herr).
  destruct (updateTask_stored (Js.Str (Wire.task_id e))
              (task_record (Wire.to_value e)) (store st))
    as (i & r & Hr & Hfields & Hfound).
  exists i, r. split_and!; [|done|..].
  - apply Hfound; [|done]. by rewrite task_record_id, Hid.
  - unfold Js.prop. erewrite Hfields; [done|].
    unfold task_record, task_updates. by rewrite Hid, lookup_insert_eq.
  - unfold Js.prop. erewrite Hfields; [done|].
    unfold task_record, task_updates.
    by rewrite Htype, !lookup_insert_ne, lookup_insert_eq by done.
  - unfold Js.prop. erewrite Hfields; [done|].
    unfold task_record, task_updates.
    by rewrite Hstatus, !lookup_insert_ne, lookup_insert_eq by done.
  - unfold Js.prop. erewrite Hfields; [done|].
    unfold task_record, task_updates.
    by rewrite Hprog, !lookup_insert_ne, lookup_insert_eq by done.
  - unfold Js.prop. erewrite Hfields; [done|].
    unfold task_record, task_updates.
    by rewrite Hmsg, !lookup_insert_ne, lookup_insert_eq by done.
  - unfold Js.prop. erewrite Hfields; [done|].
    unfold task_record, task_updates.
    by rewrite Herr, !lookup_insert_ne, lookup_insert_eq by done.
Qed.

Lemma handled_task_found (e : Wire.TaskProgressMessage)
    data st :
  JSON_parse host data = Some (Wire.to_value e) ->
  Wire.type e <> "pong" ->
  callback_returns options (Wire.to_value e) = true ->
  exists i,
    Store.findIndex (Js.Str (Wire.task_id e))
      (Store.tasks (Store.updateTask (Js.Str (Wire.task_id e))
                      (task_record (Wire.to_value e)) (store st))) = Some i.
Proof.
  intros Hp Hty Hcb.
  destruct (updateTask_stored (Js.Str (Wire.task_id e))
              (task_record (Wire.to_value e)) (store st))
    as (i & r & _ & _ & Hfound).
  exists i. apply Hfound; [|done].
  by rewrite task_record_id, (proj1 (to_value_fields e)).
Qed.

(** X22: messages for one task are merged, not appended.  For well-formed
    messages that are handled (not a pong, the callback returning): a
    message for a task the store has keeps the number of tasks, one for a
    task it does not have adds exactly one, and so two such messages in a
    row for the same task add one record at most. *)
Theorem same_task_is_merged (e1 e2 : Wire.TaskProgressMessage)
    data1 data2 st :
  JSON_parse host data1 = Some (Wire.to_value e1) ->
  JSON_parse host data2 = Some (Wire.to_value e2) ->
  Wire.task_id e1 = Wire.task_id e2 ->
  Wire.type e1 <> "pong" -> Wire.type e2 <> "pong" ->
  callback_returns options (Wire.to_value e1) = true ->
  callback_returns options (Wire.to_value e2) = true ->
  let n0 := length (Store.tasks (store st)) in
  let st1 := run (onmessage options host data1) st in
  let st2 := run (onmessage options host data2) st1 in
  length (Store.tasks (store st2)) = length (Store.tasks (store st1))
  /\ (length (Store.tasks (store st1)) = n0
      \/ length (Store.tasks (store st1)) = S n0)
  /\ (is_Some (Store.findIndex (Js.Str (Wire.task_id e1))
                 (Store.tasks (store st)))
      <-> length (Store.tasks (store st1)) = n0).
Proof.
  intros Hp1 Hp2 Hsame Ht1 Ht2 Hcb1 Hcb2 n0 st1 st2. subst n0 st1 st2.
  rewrite (handled_tasks e2 data2 _ Hp2 Ht2 Hcb2).
  rewrite <- Hsame.
  destruct (handled_task_found e1 data1 st Hp1 Ht1 Hcb1)
    as (i & Hfound).
  unfold Store.updateTask at 1.
  rewrite !(handled_tasks e1 data1 st Hp1 Ht1 Hcb1).
  split_and!.
  - rewrite Hfound. cbn. apply length_alter.
  - clear Hfound. unfold Store.updateTask.
    destruct (Store.findIndex _ (Store.tasks (store st))); cbn.
    + left. apply length_alter.
    + right. rewrite length_app. cbn. lia.
  - clear Hfound. unfold Store.updateTask.
    destruct (Store.findIndex _ (Store.tasks (store st))); cbn.
    + rewrite length_alter. split; [done|eauto].
    + rewrite length_app. cbn. split; [by intros []|lia].
Qed.

(** X23: the dispatcher never duplicates a task: where no two tasks share an
    id, none do after a well-formed message, whatever it is. *)
Theorem dispatch_keeps_task_ids_distinct (e : Wire.TaskProgressMessage)
    data st :
  JSON_parse host data = Some (Wire.to_value e) ->
  distinct_ids (Store.tasks (store st)) ->
  distinct_ids (Store.tasks (store (run (onmessage options host data) st))).
Proof.
  intros Hp Hdist. rewrite onmessage_store, Hp.
  destruct (_ || _); [done|]. unfold apply_message.
  rewrite route_scene_tasks.
  apply updateTask_distinct; [apply task_record_id| |done].
  by rewrite (proj1 (to_value_fields e)).
Qed.

End WithOptions.

Lemma pong_is_discarded_witness :
  JSON_parse Scenario.browser Scenario.pong_text = Some Scenario.pong
  /\ onmessage default_options Scenario.browser Scenario.pong_text
       Scenario.opened
     = (Scenario.opened, inr tt).
Proof.
  split; [reflexivity|].
  apply (pong_is_discarded default_options Scenario.browser Scenario.pong_text
           Scenario.pong Scenario.opened); reflexivity.
Defined.

Lemma completed_result_reaches_scene_witness :
  JSON_parse Sample.host Sample.completed_text
  = Some (Wire.to_value Sample.completed)
  /\ Store.findIndex (Js.Str "s1") (Store.scenes (store Sample.start)) = Some 0
  /\ exists r,
       Store.scenes
         (store (run (onmessage default_options Sample.host
                        Sample.completed_text) Sample.start)) !! 0 = Some r
       /\ Js.prop r "image_url" = Js.Str "x"
       /\ Js.prop r "status" = Js.Str "completed".
Proof.
  split; [reflexivity|]. split; [reflexivity|].
  destruct (completed_result_reaches_scene default_options Sample.host
              Sample.completed_text (Wire.to_value Sample.completed)
              Sample.start "image" 0
              (<["id" := Js.Str "s1"]>
                 (<["status" := Js.Str "generating"]> ∅))
              eq_refl eq_refl (or_introl eq_refl) eq_refl eq_refl eq_refl
              eq_refl eq_refl eq_refl)
    as (r & Hr & Hurl & Hstatus & _).
  exists r. split_and!; [exact Hr | exact Hurl | exact Hstatus].
Defined.

Lemma failure_marks_scene_failed_witness :
  JSON_parse Scenario.browser Scenario.failed_text
  = Some (Wire.to_value Scenario.failed)
  /\ Store.findIndex (Js.Str "s1") (Store.scenes (store Sample.start)) = Some 0
  /\ exists r,
       Store.scenes
         (store (run (onmessage default_options Scenario.browser
                        Scenario.failed_text) Sample.start)) !! 0 = Some r
       /\ Js.prop r "status" = Js.Str "failed".
Proof.
  split; [reflexivity|]. split; [reflexivity|].
  destruct (failure_marks_scene_failed default_options Scenario.browser
              Scenario.failed_text (Wire.to_value Scenario.failed)
              Sample.start 0
              (<["id" := Js.Str "s1"]>
                 (<["status" := Js.Str "generating"]> ∅))
              eq_refl eq_refl eq_refl eq_refl eq_refl eq_refl eq_refl)
    as (r & Hr & Hstatus & _).
  exists r. split; [exact Hr | exact Hstatus].
Defined.

Lemma unrouted_message_keeps_scenes_witness :
  JSON_parse Sample.host Sample.running_text
  = Some (Wire.to_value Sample.running)
  /\ routes (Wire.to_value Sample.running) = false
  /\ Store.scenes
       (store (run (onmessage default_options Sample.host Sample.running_text)
                 Sample.start))
     = Store.scenes (store Sample.start).
Proof.
  split; [reflexivity|]. split; [reflexivity|].
  apply (unrouted_message_keeps_scenes default_options Sample.host
           Sample.running_text (Wire.to_value Sample.running) Sample.start);
    reflexivity.
Defined.

Lemma unknown_scene_does_not_block_task_witness :
  JSON_parse Sample.host Sample.completed_text
  = Some (Wire.to_value Sample.completed)
  /\ Store.findIndex (Js.Str "s1") (Store.scenes (store Scenario.bare)) = None
  /\ Store.scenes
       (store (run (onmessage default_options Sample.host Sample.completed_text)
                 Scenario.bare)) = []
  /\ length (Store.tasks
               (store (run (onmessage default_options Sample.host
                              Sample.completed_text) Scenario.bare))) = 1.
Proof.
  split; [reflexivity|]. split; [reflexivity|].
  destruct (unknown_scene_does_not_block_task default_options Sample.host
              Sample.completed_text (Wire.to_value Sample.completed)
              Scenario.bare eq_refl eq_refl)
    as (_ & Hscenes & Hhandled).
  destruct (Hhandled eq_refl eq_refl eq_refl) as (Htasks & _).
  split; [exact Hscenes|]. rewrite Htasks. reflexivity.
Defined.

Lemma last_message_fields_are_recorded_witness :
  JSON_parse Scenario.browser Scenario.failed_text
  = Some (Wire.to_value Scenario.failed)
  /\ exists i r,
       Store.tasks
         (store (run (onmessage default_options Scenario.browser
                        Scenario.failed_text) Sample.start)) !! i = Some r
       /\ Js.prop r "status" = Js.Str "failed"
       /\ Js.prop r "error_message" = Js.Str "out of memory".
Proof.
  split; [reflexivity|].
  destruct (last_message_fields_are_recorded default_options Scenario.browser
              Scenario.failed Scenario.failed_text Sample.start eq_refl)
    as (i & r & _ & Hr & _ & _ & Hstatus & _ & _ & Herr);
    [discriminate | reflexivity |].
  exists i, r. split_and!; [exact Hr | exact Hstatus | exact Herr].
Defined.

Lemma same_task_is_merged_witness :
  JSON_parse Sample.host Sample.running_text
  = Some (Wire.to_value Sample.running)
  /\ JSON_parse Sample.host Sample.completed_text
     = Some (Wire.to_value Sample.completed)
  /\ Wire.task_id Sample.running = Wire.task_id Sample.completed
  /\ length (Store.tasks
               (store (run (onmessage default_options Sample.host
                              Sample.completed_text)
                         (run (onmessage default_options Sample.host
                                 Sample.running_text) Sample.start))))
     = length (Store.tasks
                 (store (run (onmessage default_options Sample.host
                                Sample.running_text) Sample.start))).
Proof.
  split_and!; [reflexivity..|].
  refine (proj1 (same_task_is_merged default_options Sample.host
                   Sample.running Sample.completed Sample.running_text
                   Sample.completed_text Sample.start
                   eq_refl eq_refl eq_refl _ _ eq_refl eq_refl));
    discriminate.
Defined.

Lemma dispatch_keeps_task_ids_distinct_witness :
  JSON_parse Sample.host Sample.running_text
  = Some (Wire.to_value Sample.running)
  /\ distinct_ids (Store.tasks (store Sample.start))
  /\ distinct_ids
       (Store.tasks
          (store (run (onmessage default_options Sample.host
                         Sample.running_text) Sample.start))).
Proof.
  assert (distinct_ids (Store.tasks (store Sample.start))) as Hnone.
  { intros i j x y Hi. cbn in Hi. by rewrite lookup_nil in Hi. }
  split_and!; [reflexivity | exact Hnone |].
  exact (dispatch_keeps_task_ids_distinct default_options Sample.host
           Sample.running Sample.running_text Sample.start eq_refl Hnone).
Defined.

End RoutingFacts.

(** ** The store methods the views call *)

Module ProjectFacts.
Import StoreFacts DispatchFacts Routing RoutingFacts Project.

Lemma find_findIndex id (arr : list (gmap string Js.value)) :
  find id arr = (Store.findIndex id arr) ≫= (fun i => arr !! i).
Proof.
  induction arr as [|x arr IH]; cbn; [done|].
  destruct (Js.strict_eq (Js.prop x "id") id); [done|].
  rewrite IH. by destruct (Store.findIndex id arr).
Qed.

Lemma find_Some id (arr : list (gmap string Js.value)) x :
  find id arr = Some x ->
  x ∈ arr /\ Js.strict_eq (Js.prop x "id") id = true.
Proof.
  induction arr as [|y arr IH]; cbn; [done|].
  destruct (Js.strict_eq (Js.prop y "id") id) eqn:Hy.
  - intros [= <-]. split; [left|done].
  - intros H. destruct (IH H). split; [by right|done].
Qed.

Lemma find_None id (arr : list (gmap string Js.value)) :
  find id arr = None <->
  forall j y, arr !! j = Some y -> Js.strict_eq (Js.prop y "id") id = false.
Proof.
  rewrite <- findIndex_None, find_findIndex.
  destruct (Store.findIndex id arr) as [i|] eqn:Hf; cbn; [|done].
  destruct (findIndex_Some _ _ _ Hf) as (x & -> & _). done.
Qed.

Lemma find_is_Some id (arr : list (gmap string Js.value)) :
  id ∈ ids arr -> Js.primitive id = true -> is_Some (find id arr).
Proof.
  intros Hin Hprim. destruct (find id arr) eqn:Hf; [eauto|].
  apply list_elem_of_fmap in Hin as (x & -> & Hx).
  apply list_elem_of_lookup in Hx as (j & Hj).
  pose proof (proj1 (find_None _ _) Hf j x Hj) as Hne.
  by rewrite strict_eq_refl in Hne.
Qed.

(** Where the ids are pairwise different, [find] returns the one record that
    carries the id. *)
Lemma find_unique (arr : list (gmap string Js.value)) x :
  distinct_ids arr -> x ∈ arr -> Js.primitive (Js.prop x "id") = true ->
  find (Js.prop x "id") arr = Some x.
Proof.
  intros Hdist Hx Hprim.
  apply list_elem_of_lookup in Hx as (j & Hj).
  rewrite find_findIndex.
  destruct (Store.findIndex (Js.prop x "id") arr) as [i|] eqn:Hf; cbn.
  - destruct (findIndex_Some _ _ _ Hf) as (y & Hy & Hmatch & _).
    destruct (decide (i = j)) as [->|Hne]; [congruence|].
    by rewrite (Hdist i j y x Hy Hj Hne) in Hmatch.
  - pose proof (proj1 (findIndex_None _ _) Hf j x Hj) as Hne.
    by rewrite strict_eq_refl in Hne.
Qed.

(** X24: [addTask] never duplicates and never overwrites: where a task with
    the id is there the store is left as it is, whatever the new task
    carries; adding the same task twice is adding it once; and tasks with
    pairwise different ids stay so. *)
Theorem addTask_keeps_first task st :
  Js.primitive (Js.prop task "id") = true ->
  (is_Some (find (Js.prop task "id") (Store.tasks st)) -> addTask task st = st)
  /\ (find (Js.prop task "id") (Store.tasks st) = None ->
      Store.tasks (addTask task st) = Store.tasks st ++ [task])
  /\ addTask task (addTask task st) = addTask task st
  /\ Store.scenes (addTask task st) = Store.scenes st
  /\ (distinct_ids (Store.tasks st) ->
      distinct_ids (Store.tasks (addTask task st))).
Proof.
  intros Hprim. unfold addTask.
  destruct (find (Js.prop task "id") (Store.tasks st)) as [x|] eqn:Hf.
  - split_and!; try done. by rewrite Hf.
  - split_and!; try done.
    + cbn.
      assert (is_Some (find (Js.prop task "id") (Store.tasks st ++ [task])))
        as [y ->]; [|done].
      apply find_is_Some; [|done]. unfold ids. rewrite fmap_app.
      apply elem_of_app. right. cbn. left.
    + intros Hdist. cbn. pose proof (proj1 (find_None _ _) Hf) as Hnone.
      intros a b x y Ha Hb Hab.
      apply lookup_app_Some in Ha as [Ha|[Hla Ha]];
        apply lookup_app_Some in Hb as [Hb|[Hlb Hb]].
      * by apply (Hdist a b).
      * apply list_lookup_singleton_Some in Hb as [_ <-]. by apply (Hnone a).
      * apply list_lookup_singleton_Some in Ha as [_ <-].
        rewrite strict_eq_sym. by apply (Hnone b).
      * apply list_lookup_singleton_Some in Ha as [Ha0 _].
        apply list_lookup_singleton_Some in Hb as [Hb0 _]. lia.
Qed.

(** X25: once the deletion is confirmed no project with the id is left in
    the list, every other project stays, in the order it had, and the
    current project is cleared exactly when it is the deleted one; a
    rejected deletion changes nothing and is passed on. *)
Theorem remove_forgets_project id s :
  let s' := (remove id (inr tt) s).1 in
  Store.findIndex (Js.Str id) (projects s') = None
  /\ sublist (projects s') (projects s)
  /\ (forall p, p ∈ projects s ->
        Js.strict_eq (Js.prop p "id") (Js.Str id) = false ->
        p ∈ projects s')
  /\ currentProject s'
     = (if Js.strict_eq (current_id s) (Js.Str id) then None
        else currentProject s)
  /\ Js.strict_eq (current_id s') (Js.Str id) = false
  /\ (forall e, remove id (inl e) s = (s, inl e)).
Proof.
  cbn. split_and!; try done.
  - apply findIndex_None. intros j y Hj.
    apply list_elem_of_lookup_2, list_elem_of_In, filter_In in Hj as [_ Hy].
    by apply negb_true_iff in Hy.
  - induction (projects s) as [|p l IH]; cbn; [done|].
    destruct (negb _); by constructor.
  - intros p Hp Hne. apply list_elem_of_In, filter_In.
    split; [by apply list_elem_of_In|]. by rewrite Hne.
  - unfold current_id at 1. cbn.
    destruct (Js.strict_eq (current_id s) (Js.Str id)) eqn:Hc; [done|].
    exact Hc.
Qed.

Lemma imap_renumber_lookup (found : list (gmap string Js.value)) k r :
  imap (fun index s =>
          Js.spread s (<["scene_index" := Js.Num (Z.of_nat index + 1)]> ∅))
    found !! k = Some r ->
  exists old, found !! k = Some old
    /\ r = Js.spread old (<["scene_index" := Js.Num (Z.of_nat k + 1)]> ∅).
Proof.
  rewrite list_lookup_imap. destruct (found !! k) as [old|]; [|done].
  cbn. intros [= <-]. eauto.
Qed.

Lemma renumbered_id (old : gmap string Js.value) z :
  Js.prop (Js.spread old (<["scene_index" := z]> ∅)) "id" = Js.prop old "id".
Proof. apply spread_keeps_id. by rewrite lookup_insert_ne. Qed.

(** X26: after a confirmed reorder the scene at position [k] (from zero) has
    [scene_index] [k + 1]; it is a scene the store had, under one of the
    requested ids, with every other field as it was.  So a scene whose id
    was not requested is dropped from the store. *)
Theorem reorderScenes_renumbers sceneIds st k r :
  Store.scenes (reorderScenes sceneIds (inr tt) st).1 !! k = Some r ->
  Js.prop r "scene_index" = Js.Num (Z.of_nat k + 1)
  /\ exists old id,
       old ∈ Store.scenes st /\ id ∈ sceneIds
       /\ Js.prop old "id" = Js.Str id
       /\ Js.prop r "id" = Js.Str id
       /\ forall key, key <> "scene_index" -> r !! key = old !! key.
Proof.
  cbn. intros Hr. apply imap_renumber_lookup in Hr as (old & Hold & ->).
  split; [unfold Js.prop; by rewrite spread_lookup, lookup_insert_eq|].
  apply list_elem_of_lookup_2, list_elem_of_omap in Hold as (o & Ho & Hoo).
  cbn in Hoo. subst o.
  apply list_elem_of_fmap in Ho as (id & Hfind & Hid).
  symmetry in Hfind. apply find_Some in Hfind as [Hin Hmatch].
  apply strict_eq_eq in Hmatch.
  exists old, id. split_and!; try done.
  - by rewrite renumbered_id.
  - intros key Hkey. by rewrite spread_lookup, lookup_insert_ne, lookup_empty.
Qed.

Lemma reorder_ids sceneIds (scenes : list (gmap string Js.value)) :
  (forall id, id ∈ sceneIds -> Js.Str id ∈ ids scenes) ->
  ids (omap (fun s => s) ((fun id => find (Js.Str id) scenes) <$> sceneIds))
  = Js.Str <$> sceneIds.
Proof.
  induction sceneIds as [|id l IH]; intros Hknown; cbn; [done|].
  destruct (find_is_Some (Js.Str id) scenes) as [x Hx]; [|done|].
  { apply Hknown. left. }
  rewrite Hx. cbn. destruct (find_Some _ _ _ Hx) as [_ Hmatch].
  apply strict_eq_eq in Hmatch. rewrite Hmatch. f_equal.
  apply IH. intros id' Hid'. apply Hknown. by right.
Qed.

Lemma ids_imap_renumber (found : list (gmap string Js.value)) :
  ids (imap (fun index s =>
               Js.spread s
                 (<["scene_index" := Js.Num (Z.of_nat index + 1)]> ∅)) found)
  = ids found.
Proof.
  unfold ids. apply list_eq. intros k.
  rewrite !list_lookup_fmap, list_lookup_imap.
  destruct (found !! k); [|done]. cbn. by rewrite renumbered_id.
Qed.

(** X27: when the requested ids are the ids of the store's scenes in some
    order, each once, the scenes come out in exactly the requested order,
    none is lost and none is doubled: every scene the store had is there
    with all its fields but [scene_index]. *)
Theorem reorderScenes_permutes sceneIds st :
  Js.Str <$> sceneIds ≡ₚ ids (Store.scenes st) ->
  NoDup sceneIds ->
  let after := Store.scenes (reorderScenes sceneIds (inr tt) st).1 in
  ids after = Js.Str <$> sceneIds
  /\ length after = length (Store.scenes st)
  /\ forall old, old ∈ Store.scenes st ->
       exists k r, after !! k = Some r
         /\ forall key, key <> "scene_index" -> r !! key = old !! key.
Proof.
  intros Hperm Hnodup after.
  assert (ids after = Js.Str <$> sceneIds) as Hids.
  { subst after. cbn. rewrite ids_imap_renumber. apply reorder_ids.
    intros id Hid. rewrite <- Hperm. by apply list_elem_of_fmap_2. }
  assert (distinct_ids (Store.scenes st)) as Hdist.
  { assert (NoDup (ids (Store.scenes st))) as Hnd.
    { rewrite <- Hperm. apply NoDup_fmap_2; [|done]. by intros ?? [=]. }
    intros i j x y Hi Hj Hij.
    destruct (Js.strict_eq _ _) eqn:Heq; [|done].
    apply strict_eq_eq in Heq. exfalso. apply Hij.
    apply (NoDup_lookup _ i j (Js.prop x "id") Hnd);
      unfold ids; rewrite list_lookup_fmap; [by rewrite Hi|].
    by rewrite Hj, Heq. }
  split_and!; [done| |].
  - apply (f_equal length) in Hids. unfold ids in Hids.
    rewrite !length_fmap in Hids. rewrite Hids.
    apply Permutation_length in Hperm. unfold ids in Hperm.
    by rewrite !length_fmap in Hperm.
  - intros old Hold.
    assert (Js.prop old "id" ∈ Js.Str <$> sceneIds) as Hid.
    { rewrite Hperm.
      by apply (list_elem_of_fmap_2 (fun r => Js.prop r "id")). }
    apply list_elem_of_fmap in Hid as (id & Hid & Hin).
    assert (find (Js.Str id) (Store.scenes st) = Some old) as Hfind.
    { rewrite <- Hid. apply find_unique; [done..|]. by rewrite Hid. }
    assert (old ∈ omap (fun s => s)
              ((fun id => find (Js.Str id) (Store.scenes st)) <$> sceneIds))
      as Hfound.
    { apply list_elem_of_omap. exists (Some old). split; [|done].
      apply list_elem_of_fmap. by exists id. }
    apply list_elem_of_lookup in Hfound as (k & Hk).
    exists k. eexists. split.
    + subst after. cbn. by rewrite list_lookup_imap, Hk.
    + intros key Hkey.
      by rewrite spread_lookup, lookup_insert_ne, lookup_empty.
Qed.

Lemma addTask_keeps_first_witness :
  Js.primitive (Js.prop Scenario.new_task "id") = true
  /\ addTask Scenario.new_task (addTask Scenario.new_task Sample.store0)
     = addTask Scenario.new_task Sample.store0
  /\ Store.tasks (addTask Scenario.new_task Sample.store0)
     = [Scenario.new_task].
Proof.
  split; [reflexivity|].
  destruct (addTask_keeps_first Scenario.new_task Sample.store0 eq_refl)
    as (_ & Hnew & Htwice & _).
  split; [exact Htwice | exact (Hnew eq_refl)].
Defined.

Lemma reorderScenes_renumbers_witness :
  Store.scenes (reorderScenes ["s2"; "s1"] (inr tt) Scenario.two_scenes).1 !! 0
  = Some (<["scene_index" := Js.Num 1]>
            (<["id" := Js.Str "s2"]> (<["scene_index" := Js.Num 2]> ∅)))
  /\ Js.prop (<["scene_index" := Js.Num 1]>
                (<["id" := Js.Str "s2"]> (<["scene_index" := Js.Num 2]> ∅)))
       "scene_index" = Js.Num 1.
Proof.
  split; [vm_compute; reflexivity|].
  apply (reorderScenes_renumbers ["s2"; "s1"] Scenario.two_scenes 0).
  vm_compute. reflexivity.
Defined.

Lemma reorderScenes_permutes_witness :
  Js.Str <$> ["s2"; "s1"] ≡ₚ ids (Store.scenes Scenario.two_scenes)
  /\ NoDup ["s2"; "s1"]
  /\ ids (Store.scenes
            (reorderScenes ["s2"; "s1"] (inr tt) Scenario.two_scenes).1)
     = [Js.Str "s2"; Js.Str "s1"]
  /\ length (Store.scenes
               (reorderScenes ["s2"; "s1"] (inr tt) Scenario.two_scenes).1) = 2.
Proof.
  assert (Js.Str <$> ["s2"; "s1"] ≡ₚ ids (Store.scenes Scenario.two_scenes))
    as Hperm by apply perm_swap.
  assert (NoDup ["s2"; "s1"]) as Hnodup by compute_done.
  destruct (reorderScenes_permutes ["s2"; "s1"] Scenario.two_scenes
              Hperm Hnodup) as (Hids & Hlen & _).
  split_and!; [exact Hperm | exact Hnodup | exact Hids | exact Hlen].
Defined.

End ProjectFacts.
